(** * The speech pipeline of main.py: MIME parameter parsing, WAV container
      synthesis, stream aggregation and the fallback decision tree; then
      conversation formatting, question generation with its route, and the
      code-fence step of the analytics dashboard.

    Python values are embedded as follows.
    - [str] is [string]: a sequence of code points below 256.  [isspace],
      [lower] and [int] follow the interpreter on these code points.
    - [bytes] is [list byte].
    - [int] is [Z]; [int(str)] refuses a literal of more digits than the
      interpreter's limit, which the repository leaves at its default of
      4300 ([Str.int_max_str_digits]).
    - a raised exception is the [Raise] outcome of [result]; a [try] with
      its [except] is a match on that outcome, by exception class where the
      handler names classes.
    - [print] writes to a log that no code reads back; it is left out, and
      so is the chunk counter that only feeds it.
    - what the provider, [mimetypes] and [struct] contribute and the
      repository does not fix is a parameter: the chunk stream of a request
      ([Provider]), the MIME table and the text of [struct.error]
      ([Runtime]). *)

From Stdlib Require Import ZArith NArith List String Ascii Bool Lia.
From Stdlib Require Import DecimalString DecimalPos.
From coqutil Require Import Byte Word.LittleEndianList.
Import ListNotations.

Local Open Scope list_scope.
Local Open Scope Z_scope.

(* ===================================================================== *)
(** ** Exceptions *)
(* ===================================================================== *)

(** The exception classes that occur, each with what determines its text. *)
Inductive exn : Type :=
| ValueError (msg : string)            (* int() on a bad literal, explicit raise *)
| IndexError (msg : string)            (* subscript past the end *)
| StructError (code : ascii) (v : Z)   (* struct.error: v does not fit code *)
| WaveError (msg : string)             (* wave.Error *)
| UpstreamError (msg : string).        (* anything the provider's client raises *)

Inductive result (A : Type) : Type :=
| Ok (a : A)
| Raise (e : exn).
Arguments Ok {A} a.
Arguments Raise {A} e.

Definition bind {A B} (r : result A) (k : A -> result B) : result B :=
  match r with
  | Ok a => k a
  | Raise e => Raise e
  end.

Notation "x <- r ;; k" := (bind r (fun x => k))
  (at level 61, r at next level, right associativity).

(** [except (ValueError, IndexError): pass] around a block whose only
    effect is to assign one variable: the old value survives a caught
    exception, any other class propagates. *)
Definition except_ValueError_IndexError {A} (body : result A) (old : A) : result A :=
  match body with
  | Ok a => Ok a
  | Raise (ValueError _) => Ok old
  | Raise (IndexError _) => Ok old
  | Raise e => Raise e
  end.

(** [l[i]] on a list, for an index that is not negative. *)
Definition getitem {A} (l : list A) (i : nat) : result A :=
  match nth_error l i with
  | Some a => Ok a
  | None => Raise (IndexError "list index out of range"%string)
  end.

(* ===================================================================== *)
(** ** Text primitives *)
(* ===================================================================== *)

Module Str.

Definition ord (c : ascii) : Z := Z.of_N (N_of_ascii c).

(** [str.isspace] on one code point below 256. *)
Definition isspace (c : ascii) : bool :=
  let n := ord c in
  ((9 <=? n) && (n <=? 13)) || ((28 <=? n) && (n <=? 32))
  || (n =? 133) || (n =? 160).

(** [str.lower] on one code point below 256. *)
Definition lower_char (c : ascii) : ascii :=
  let n := ord c in
  if ((65 <=? n) && (n <=? 90))
     || ((192 <=? n) && (n <=? 222) && negb (n =? 215))
  then ascii_of_N (Z.to_N (n + 32)) else c.

Fixpoint lower (s : string) : string :=
  match s with
  | EmptyString => EmptyString
  | String c r => String (lower_char c) (lower r)
  end.

Fixpoint lstrip (s : string) : string :=
  match s with
  | EmptyString => EmptyString
  | String c r => if isspace c then lstrip r else s
  end.

Fixpoint rstrip (s : string) : string :=
  match s with
  | EmptyString => EmptyString
  | String c r =>
      match rstrip r with
      | EmptyString => if isspace c then EmptyString else String c EmptyString
      | r' => String c r'
      end
  end.

(** [s.strip()] *)
Definition strip (s : string) : string := rstrip (lstrip s).

(** [s.split(sep)] for a one-character separator: never the empty list. *)
Fixpoint split (sep : ascii) (s : string) : list string :=
  match s with
  | EmptyString => [EmptyString]
  | String c r =>
      if Ascii.eqb c sep then EmptyString :: split sep r
      else match split sep r with
           | h :: t => String c h :: t
           | [] => [String c EmptyString]
           end
  end.

(** [s.split(sep, 1)]: cut at the first separator only. *)
Fixpoint split1 (sep : ascii) (s : string) : list string :=
  match s with
  | EmptyString => [EmptyString]
  | String c r =>
      if Ascii.eqb c sep then [EmptyString; r]
      else match split1 sep r with
           | h :: t => String c h :: t
           | [] => [String c EmptyString]
           end
  end.

(** [s.startswith(p)] *)
Fixpoint startswith (s p : string) {struct p} : bool :=
  match p with
  | EmptyString => true
  | String a p' =>
      match s with
      | EmptyString => false
      | String b s' => Ascii.eqb a b && startswith s' p'
      end
  end.

(** [sub in s] *)
Fixpoint contains (sub s : string) : bool :=
  startswith s sub ||
  match s with
  | EmptyString => false
  | String _ r => contains sub r
  end.

(** *** [int(s)], base 10 *)

(** Whitespace skipped by [int] around the literal: the C locale's
    whitespace, and the two code points in 128..255 that the conversion
    first rewrites to a blank. *)
Definition int_space (c : ascii) : bool :=
  let n := ord c in
  ((9 <=? n) && (n <=? 13)) || (n =? 32) || (n =? 133) || (n =? 160).

Definition digit_value (c : ascii) : option Z :=
  let n := ord c in
  if (48 <=? n) && (n <=? 57) then Some (n - 48) else None.

Fixpoint skip_int_space (s : string) : string :=
  match s with
  | EmptyString => EmptyString
  | String c r => if int_space c then skip_int_space r else s
  end.

(** The digit loop: digits, with single underscores between them.  Returns
    the value, the number of digits read and the unread rest; [None] on a
    doubled or trailing underscore. *)
Fixpoint scan_digits (s : string) (prev_underscore : bool) (acc : Z) (ndigits : nat)
  : option (Z * nat * string) :=
  match s with
  | EmptyString => if prev_underscore then None else Some (acc, ndigits, s)
  | String c r =>
      match digit_value c with
      | Some d => scan_digits r false (10 * acc + d) (S ndigits)
      | None =>
          if Ascii.eqb c "_"%char then
            if prev_underscore then None else scan_digits r true acc ndigits
          else if prev_underscore then None else Some (acc, ndigits, s)
      end
  end.

Definition invalid_literal (s : string) : exn :=
  ValueError ("invalid literal for int() with base 10: " ++ s)%string.

(** [sys.get_int_max_str_digits()]: the most digits a literal may have.
    The interpreter starts with 4300 and the repository never changes it. *)
Definition int_max_str_digits : Z := 4300.

Definition exceeds_limit : exn :=
  ValueError "Exceeds the limit (4300 digits) for integer string conversion"%string.

(** The limit is checked right after the digit loop, on the number of
    digits read: leading zeros count, the sign, the underscores and the
    surrounding whitespace do not. *)
Definition int (s : string) : result Z :=
  let s1 := skip_int_space s in
  let '(sign, s2) :=
    match s1 with
    | String "+"%char r => (1, r)
    | String "-"%char r => (-1, r)
    | _ => (1, s1)
    end in
  match s2 with
  | String "_"%char _ => Raise (invalid_literal s)
  | _ =>
      match scan_digits s2 false 0 0 with
      | None => Raise (invalid_literal s)
      | Some (v, ndigits, rest) =>
          if int_max_str_digits <? Z.of_nat ndigits then Raise exceeds_limit
          else
            match ndigits with
            | O => Raise (invalid_literal s)
            | S _ =>
                match skip_int_space rest with
                | EmptyString => Ok (sign * v)
                | _ => Raise (invalid_literal s)
                end
            end
      end
  end.

End Str.

(* ===================================================================== *)
(** ** parse_audio_mime_type *)
(* ===================================================================== *)

(** The dict [{"bits_per_sample": ..., "rate": ...}]. *)
Record AudioParameters : Type := mkParameters
  { bits_per_sample : Z;
    rate : Z }.

(** One turn of [for param in parts]. *)
Definition parse_param (st : AudioParameters) (param : string) : result AudioParameters :=
  let param := Str.strip param in
  if Str.startswith (Str.lower param) "rate="%string then
    r <- except_ValueError_IndexError
           (rate_str <- getitem (Str.split1 "="%char param) 1 ;;
            Str.int rate_str)
           (rate st) ;;
    Ok (mkParameters (bits_per_sample st) r)
  else if Str.startswith param "audio/L"%string then
    b <- except_ValueError_IndexError
           (bits_str <- getitem (Str.split1 "L"%char param) 1 ;;
            Str.int bits_str)
           (bits_per_sample st) ;;
    Ok (mkParameters b (rate st))
  else Ok st.

Fixpoint parse_params (parts : list string) (st : AudioParameters) : result AudioParameters :=
  match parts with
  | [] => Ok st
  | param :: rest => st' <- parse_param st param ;; parse_params rest st'
  end.

Definition parse_audio_mime_type (mime_type : string) : result AudioParameters :=
  parse_params (Str.split ";"%char mime_type) (mkParameters 16 24000).


(* ===================================================================== *)
(** ** struct.pack, little-endian standard sizes *)
(* ===================================================================== *)

Definition bytes := list byte.

(** A bytes literal of ASCII text, [b"RIFF"]. *)
Definition b_ (s : string) : bytes := list_byte_of_string s.

Module Struct.

(** One item of a ["<..."] format together with the argument it consumes. *)
Inductive field : Type :=
| Fs (n : nat) (b : bytes)   (* "ns": n bytes, cut or zero-padded *)
| FH (v : Z)                 (* "H": unsigned, 2 bytes *)
| FI (v : Z)                 (* "I": unsigned, 4 bytes *)
| FL (v : Z).                (* "L": unsigned, 4 bytes *)

Definition uint (code : ascii) (size : nat) (v : Z) : result bytes :=
  if (0 <=? v) && (v <? 2 ^ (8 * Z.of_nat size))
  then Ok (le_split size v)
  else Raise (StructError code v).

Definition pack_field (f : field) : result bytes :=
  match f with
  | Fs n b => Ok (firstn n (b ++ repeat Byte.x00 n))
  | FH v => uint "H" 2 v
  | FI v => uint "I" 4 v
  | FL v => uint "L" 4 v
  end.

(** [struct.pack]: the arguments are converted left to right, the first
    one out of range raises. *)
Fixpoint pack (fs : list field) : result bytes :=
  match fs with
  | [] => Ok []
  | f :: rest =>
      b <- pack_field f ;;
      bs <- pack rest ;;
      Ok (b ++ bs)
  end.

End Struct.

(* ===================================================================== *)
(** ** convert_to_wav *)
(* ===================================================================== *)

Definition len (b : bytes) : Z := Z.of_nat (List.length b).

(** The body of [convert_to_wav] below its first line: the header is packed
    from the parameters and put in front of the data. *)
Definition wav_container (audio_data : bytes) (parameters : AudioParameters)
  : result bytes :=
  let bits_per_sample := bits_per_sample parameters in
  let sample_rate := rate parameters in
  let num_channels := 1 in
  let data_size := len audio_data in
  let bytes_per_sample := bits_per_sample / 8 in
  let block_align := num_channels * bytes_per_sample in
  let byte_rate := sample_rate * block_align in
  let chunk_size := 36 + data_size in
  header <- Struct.pack
    [ Struct.Fs 4 (b_ "RIFF");
      Struct.FI chunk_size;
      Struct.Fs 4 (b_ "WAVE");
      Struct.Fs 4 (b_ "fmt ");
      Struct.FI 16;
      Struct.FH 1;
      Struct.FH num_channels;
      Struct.FI sample_rate;
      Struct.FI byte_rate;
      Struct.FH block_align;
      Struct.FH bits_per_sample;
      Struct.Fs 4 (b_ "data");
      Struct.FI data_size ] ;;
  Ok (header ++ audio_data).

Definition convert_to_wav (audio_data : bytes) (mime_type : string) : result bytes :=
  parameters <- parse_audio_mime_type mime_type ;;
  wav_container audio_data parameters.

(* ===================================================================== *)
(** ** The standard library's wave writer *)
(* ===================================================================== *)

Module Wave.

Definition WAVE_FORMAT_PCM : Z := 1.

(** [Wave_write._write_header], then the data-length word. *)
Definition write_header (nchannels sampwidth framerate datalength : Z) : result bytes :=
  h <- Struct.pack
    [ Struct.FL (36 + datalength);
      Struct.Fs 4 (b_ "WAVE");
      Struct.Fs 4 (b_ "fmt ");
      Struct.FL 16;
      Struct.FH WAVE_FORMAT_PCM;
      Struct.FH nchannels;
      Struct.FL framerate;
      Struct.FL (nchannels * framerate * sampwidth);
      Struct.FH (nchannels * sampwidth);
      Struct.FH (sampwidth * 8);
      Struct.Fs 4 (b_ "data") ] ;;
  d <- Struct.pack [ Struct.FL datalength ] ;;
  Ok (b_ "RIFF" ++ h ++ d).

(** [Wave_write._patchheader]: both length words are written again. *)
Definition patchheader (file : bytes) (datawritten : Z) : result bytes :=
  a <- Struct.pack [ Struct.FL (36 + datawritten) ] ;;
  b <- Struct.pack [ Struct.FL datawritten ] ;;
  Ok (firstn 4 file ++ a ++ firstn 32 (skipn 8 file) ++ b ++ skipn 44 file).

(** [with wave.open(buf, 'wb') as f:] [f.setnchannels(nchannels)],
    [f.setsampwidth(sampwidth)], [f.setframerate(framerate)],
    [f.writeframes(data)]; the value is the content of [buf] afterwards. *)
Definition write (nchannels sampwidth framerate : Z) (data : bytes) : result bytes :=
  if nchannels <? 1 then Raise (WaveError "bad # of channels")
  else if (sampwidth <? 1) || (4 <? sampwidth) then Raise (WaveError "bad sample width")
  else if framerate <=? 0 then Raise (WaveError "bad frame rate")
  else
    let nframes := len data / (nchannels * sampwidth) in
    let datalength := nframes * nchannels * sampwidth in
    header <- write_header nchannels sampwidth framerate datalength ;;
    let file := header ++ data in
    if datalength =? len data then Ok file
    else patchheader file (len data).

End Wave.

(** The fallback both silent branches build: one second of 16-bit mono
    silence at 24000 Hz, written through [wave]. *)
Definition silence : bytes := List.concat (repeat [Byte.x00; Byte.x00] (Z.to_nat (24000 * 1))).

Definition minimal_wav : result bytes := Wave.write 1 2 24000 silence.

(* ===================================================================== *)
(** ** The provider's chunks *)
(* ===================================================================== *)

(** The attributes of a streamed response that the loop reads.  Every
    attribute is optional in the client library; [candidates] and [parts]
    are lists. *)
Record Blob : Type := mkBlob
  { data : option bytes;
    mime_type : option string }.

Record Part : Type := mkPart
  { inline_data : option Blob;
    text : option string }.

Record Content : Type := mkContent
  { parts : option (list Part) }.

Record Candidate : Type := mkCandidate
  { content : option Content }.

Record Chunk : Type := mkChunk
  { candidates : option (list Candidate) }.

(** What iterating [generate_content_stream(...)] does: it ends, yields a
    chunk and goes on, or raises. *)
Inductive Stream : Type :=
| SEnd
| SYield (chunk : Chunk) (rest : Stream)
| SRaise (e : exn).

Fixpoint stream_of (chunks : list Chunk) : Stream :=
  match chunks with
  | [] => SEnd
  | c :: rest => SYield c (stream_of rest)
  end.

(** Library behaviour the pipeline depends on and the repository does not
    fix: the MIME table behind [mimetypes.guess_extension], and the text of
    a [struct.error]. *)
Record Runtime : Type := mkRuntime
  { guess_extension : string -> option string;
    struct_error_str : ascii -> Z -> string }.

(** [str(e)] *)
Definition exn_str (rt : Runtime) (e : exn) : string :=
  match e with
  | ValueError m => m
  | IndexError m => m
  | StructError code v => struct_error_str rt code v
  | WaveError m => m
  | UpstreamError m => m
  end.

(* ===================================================================== *)
(** ** generate_speech_with_gemini *)
(* ===================================================================== *)

(** The loop variables [audio_buffer] and [mime_type]. *)
Definition Acc : Type := (bytes * option string)%type.

(** The body of [for chunk in ...]. *)
Definition on_chunk (acc : Acc) (chunk : Chunk) : result Acc :=
  let '(audio_buffer, mime) := acc in
  match candidates chunk with
  | None => Ok acc                                            (* continue *)
  | Some cands =>
      c0 <- getitem cands 0 ;;
      match content c0 with
      | None => Ok acc                                        (* continue *)
      | Some ct =>
          match parts ct with
          | None => Ok acc                                    (* continue *)
          | Some ps =>
              part <- getitem ps 0 ;;
              match inline_data part with
              | Some blob =>
                  match data blob with
                  | Some (b :: d) =>
                      Ok (audio_buffer ++ b :: d,
                          match mime with
                          | None => mime_type blob
                          | Some _ => mime
                          end)
                  | _ => Ok acc                               (* text branch *)
                  end
              | None => Ok acc                                (* text branch *)
              end
          end
      end
  end.

(** The loop, run until the stream ends or something raises. *)
Fixpoint aggregate (s : Stream) (acc : Acc) : result Acc :=
  match s with
  | SEnd => Ok acc
  | SYield chunk rest => acc' <- on_chunk acc chunk ;; aggregate rest acc'
  | SRaise e => Raise e
  end.

(** What follows the loop inside the [try]. *)
Definition deliver (rt : Runtime) (acc : Acc) : result bytes :=
  let '(audio_data, mime) := acc in
  match audio_data with
  | [] => minimal_wav
  | _ :: _ =>
      match mime with
      | Some (String c m' as m) =>
          match guess_extension rt m with
          | Some ext =>
              if String.eqb ext ".wav" then Ok audio_data
              else convert_to_wav audio_data m
          | None => convert_to_wav audio_data m
          end
      | _ => Ok audio_data
      end
  end.

(** The test on [error_str] in the handler. *)
Definition quota_signature (error_str : string) : bool :=
  Str.contains "429" error_str
  || Str.contains "RESOURCE_EXHAUSTED" error_str
  || Str.contains "quota" (Str.lower error_str).

(** [try: ... return minimal_wav] with [except Exception: return b""]. *)
Definition emergency (attempt : result bytes) : bytes :=
  match attempt with
  | Ok w => w
  | Raise _ => []
  end.

(** [except Exception as e:] *)
Definition on_exception (rt : Runtime) (e : exn) : bytes :=
  let error_str := exn_str rt e in
  if quota_signature error_str then []
  else emergency minimal_wav.

(** The provider: the stream it answers a request text with. *)
Definition Provider : Type := string -> Stream.

(** The request texts handed to the provider so far. *)
Record World : Type := mkWorld
  { upstream_calls : list string }.

Definition call_upstream (provider : Provider) (text : string) (w : World)
  : Stream * World :=
  (provider text, mkWorld (upstream_calls w ++ [text])).

Definition generate_speech_body (rt : Runtime) (s : Stream) : result bytes :=
  acc <- aggregate s ([], None) ;;
  deliver rt acc.

Definition generate_speech_with_gemini
  (rt : Runtime) (provider : Provider) (text : string) (w : World) : bytes * World :=
  let '(s, w') := call_upstream provider text w in
  (match generate_speech_body rt s with
   | Ok b => b
   | Raise e => on_exception rt e
   end, w').

(* ===================================================================== *)
(** ** speak_text *)
(* ===================================================================== *)

Inductive HttpResult : Type :=
| StreamingResponse (body : bytes) (media_type : string)
| HTTPException (status_code : Z) (detail : string).

Definition speak_text_body
  (rt : Runtime) (provider : Provider) (text : string) (w : World)
  : result bytes * World :=
  match text, Str.strip text with
  | EmptyString, _ | _, EmptyString =>
      (Raise (ValueError "Text cannot be empty or whitespace only"), w)
  | _, _ =>
      let '(audio_data, w') := generate_speech_with_gemini rt provider text w in
      match audio_data with
      | [] => (Raise (ValueError "FATAL: Charon voice generation returned empty audio"), w')
      | _ => (Ok audio_data, w')
      end
  end.

Definition speak_text
  (rt : Runtime) (provider : Provider) (text : string) (w : World)
  : HttpResult * World :=
  let '(r, w') := speak_text_body rt provider text w in
  (match r with
   | Ok audio_data => StreamingResponse audio_data "audio/wav"
   | Raise (ValueError m) =>
       HTTPException 400 ("ValueError in speak_text: " ++ m)%string
   | Raise e =>
       HTTPException 500 ("ERROR in speak_text: " ++ exn_str rt e)%string
   end, w').

(* ===================================================================== *)
(** ** A runtime to run examples on *)
(* ===================================================================== *)

(** CPython 3.11 on a 64-bit platform, as far as the pipeline can observe:
    the only MIME type the built-in table maps to [.wav], and the texts of
    [struct.error]. *)
Definition cpython311 : Runtime :=
  mkRuntime
    (fun m => if String.eqb (Str.lower m) "audio/x-wav" then Some ".wav"%string else None)
    (fun code v =>
       if Ascii.eqb code "H" then
         if (- 2 ^ 63 <=? v) && (v <? 2 ^ 63)
         then "ushort format requires 0 <= number <= 65535"%string
         else "argument out of range"%string
       else
         if (0 <=? v) && (v <? 2 ^ 64)
         then (String "'" (String code "' format requires 0 <= number <= 4294967295"))%string
         else "argument out of range"%string).

(** Chunks of the three shapes the provider is documented to send. *)
Definition audio_chunk (d : bytes) (m : option string) : Chunk :=
  mkChunk (Some [mkCandidate (Some (mkContent (Some [mkPart (Some (mkBlob (Some d) m)) None])))]).

Definition text_chunk (t : string) : Chunk :=
  mkChunk (Some [mkCandidate (Some (mkContent (Some [mkPart None (Some t)])))]).

Definition empty_chunk : Chunk := mkChunk None.

(** A provider that answers every request with the same chunks, and one
    that fails every request. *)
Definition provider_of (chunks : list Chunk) : Provider :=
  fun _ => stream_of chunks.

Definition failing_provider (msg : string) : Provider :=
  fun _ => SRaise (UpstreamError msg).

Definition no_calls : World := mkWorld [].

(* ===================================================================== *)
(** ** Vocabulary of the properties *)
(* ===================================================================== *)

(** The decimal numeral of a positive integer. *)
Definition decimal (p : positive) : string :=
  NilEmpty.string_of_uint (Pos.to_uint p).

(** The number of digits of that numeral. *)
Definition digits (p : positive) : Z := Z.of_nat (String.length (decimal p)).

(** [n] ones; the digit sequence of [n] ones; and the positive integer
    written as the numeral of [p] followed by [n] ones. *)
Fixpoint ones (n : nat) : string :=
  match n with
  | O => EmptyString
  | S n => String "1"%char (ones n)
  end.

Fixpoint ones_uint (n : nat) : Decimal.uint :=
  match n with
  | O => Decimal.Nil
  | S n => Decimal.D1 (ones_uint n)
  end.

Fixpoint append_ones (n : nat) (p : positive) : positive :=
  match n with
  | O => p
  | S n => append_ones n (10 * p + 1)%positive
  end.

(** The positive integer written with 4301 ones. *)
Definition ones_4301 : positive := append_ones 4300 1.

(** The number a digit sequence denotes, read from the left. *)
Fixpoint uint_value (d : Decimal.uint) (acc : Z) : Z :=
  match d with
  | Decimal.Nil => acc
  | Decimal.D0 d => uint_value d (10 * acc + 0)
  | Decimal.D1 d => uint_value d (10 * acc + 1)
  | Decimal.D2 d => uint_value d (10 * acc + 2)
  | Decimal.D3 d => uint_value d (10 * acc + 3)
  | Decimal.D4 d => uint_value d (10 * acc + 4)
  | Decimal.D5 d => uint_value d (10 * acc + 5)
  | Decimal.D6 d => uint_value d (10 * acc + 6)
  | Decimal.D7 d => uint_value d (10 * acc + 7)
  | Decimal.D8 d => uint_value d (10 * acc + 8)
  | Decimal.D9 d => uint_value d (10 * acc + 9)
  end.

Fixpoint occurs (c : ascii) (s : string) : bool :=
  match s with
  | EmptyString => false
  | String a r => Ascii.eqb a c || occurs c r
  end.

Fixpoint all_digits (s : string) : bool :=
  match s with
  | EmptyString => true
  | String a r =>
      match Str.digit_value a with
      | Some _ => all_digits r
      | None => false
      end
  end.

(** *** Descriptors *)

(** The value a segment gives the rate, when it gives one. *)
Definition rate_of_param (param : string) : option Z :=
  let p := Str.strip param in
  if Str.startswith (Str.lower p) "rate="%string then
    match (rate_str <- getitem (Str.split1 "="%char p) 1 ;; Str.int rate_str) with
    | Ok v => Some v
    | Raise _ => None
    end
  else None.

(** The value a segment gives the bits per sample, when it gives one. *)
Definition bits_of_param (param : string) : option Z :=
  let p := Str.strip param in
  if Str.startswith (Str.lower p) "rate="%string then None
  else if Str.startswith p "audio/L"%string then
    match (bits_str <- getitem (Str.split1 "L"%char p) 1 ;; Str.int bits_str) with
    | Ok v => Some v
    | Raise _ => None
    end
  else None.

(** The last value given, or the default when none is. *)
Definition last_set (l : list (option Z)) (default : Z) : Z :=
  fold_left (fun acc o => match o with Some v => v | None => acc end) l default.

Definition segments (mime_type : string) : list string :=
  Str.split ";"%char mime_type.

(** No segment of the input gives the field a value. *)
Definition unset (of_param : string -> option Z) (mime_type : string) : Prop :=
  Forall (fun p => of_param p = None) (segments mime_type).

(** Every value a segment gives the field passes the test. *)
Definition all_set (of_param : string -> option Z) (test : Z -> bool)
  (mime_type : string) : bool :=
  forallb (fun p => match of_param p with Some v => test v | None => true end)
          (segments mime_type).

Definition default_parameters : AudioParameters := mkParameters 16 24000.

(** The invariant the data model states for a descriptor. *)
Definition descriptor_invariant (d : AudioParameters) : Prop :=
  0 < bits_per_sample d /\ bits_per_sample d mod 8 = 0 /\ 0 < rate d.

Definition bits_ok (v : Z) : bool := (0 <? v) && (v mod 8 =? 0).
Definition rate_ok (v : Z) : bool := 0 <? v.

(** *** Containers *)

Definition slice (w : bytes) (off n : nat) : bytes := firstn n (skipn off w).

(** The little-endian unsigned integer in [n] bytes from offset [off]. *)
Definition uint_at (w : bytes) (off n : nat) : Z := le_combine (slice w off n).

(** [w] is the canonical 44-byte mono PCM header for descriptor [D],
    followed by [P]. *)
Definition is_wav_container (P : bytes) (D : AudioParameters) (w : bytes) : Prop :=
  exists header,
    w = header ++ P /\
    List.length header = 44%nat /\
    slice header 0 4 = b_ "RIFF" /\
    uint_at header 4 4 = 36 + len P /\
    slice header 8 4 = b_ "WAVE" /\
    slice header 12 4 = b_ "fmt " /\
    uint_at header 16 4 = 16 /\
    uint_at header 20 2 = 1 /\
    uint_at header 22 2 = 1 /\
    uint_at header 24 4 = rate D /\
    uint_at header 28 4 = rate D * (bits_per_sample D / 8) /\
    uint_at header 32 2 = bits_per_sample D / 8 /\
    uint_at header 34 2 = bits_per_sample D /\
    slice header 36 4 = b_ "data" /\
    uint_at header 40 4 = len P.

(** The 44-byte header of the container format, field by field, for a
    payload of [n] bytes. *)
Definition canonical_header (n : Z) (D : AudioParameters) : bytes :=
  b_ "RIFF" ++ le_split 4 (36 + n) ++ b_ "WAVE" ++
  b_ "fmt " ++ le_split 4 16 ++ le_split 2 1 ++ le_split 2 1 ++
  le_split 4 (rate D) ++ le_split 4 (rate D * (bits_per_sample D / 8)) ++
  le_split 2 (bits_per_sample D / 8) ++ le_split 2 (bits_per_sample D) ++
  b_ "data" ++ le_split 4 n.

(** Every header field has room for its value. *)
Definition fits_header (n : Z) (D : AudioParameters) : Prop :=
  36 + n < 2 ^ 32 /\
  0 <= bits_per_sample D < 2 ^ 16 /\
  0 <= rate D < 2 ^ 32 /\
  rate D * (bits_per_sample D / 8) < 2 ^ 32.

Definition field_size (f : Struct.field) : nat :=
  match f with
  | Struct.Fs n _ => n
  | Struct.FH _ => 2
  | Struct.FI _ => 4
  | Struct.FL _ => 4
  end.

(** One second of 16-bit mono silence at 24000 Hz: 48000 zero bytes. *)
Definition one_second_of_silence : bytes := repeat Byte.x00 (Z.to_nat 48000).

Definition pcm16_24k : AudioParameters := mkParameters 16 24000.

(** The silent container: the canonical header for 16-bit mono PCM at
    24000 Hz, then one second of silence. *)
Definition silent_container : bytes :=
  canonical_header (len one_second_of_silence) pcm16_24k ++ one_second_of_silence.

(** *** Streams *)

(** The audio payload a chunk carries and the MIME type tagged on it: the
    inline data of the first part of the first candidate, when not empty. *)
Definition payload_of (chunk : Chunk) : option (bytes * option string) :=
  match candidates chunk with
  | Some (c0 :: _) =>
      match content c0 with
      | Some ct =>
          match parts ct with
          | Some (part :: _) =>
              match inline_data part with
              | Some blob =>
                  match data blob with
                  | Some (b :: d) => Some (b :: d, mime_type blob)
                  | _ => None
                  end
              | None => None
              end
          | _ => None
          end
      | None => None
      end
  | _ => None
  end.

Fixpoint payloads (chunks : list Chunk) : list (bytes * option string) :=
  match chunks with
  | [] => []
  | c :: rest =>
      match payload_of c with
      | Some p => p :: payloads rest
      | None => payloads rest
      end
  end.

Definition payload_bytes (chunks : list Chunk) : bytes :=
  List.concat (map fst (payloads chunks)).

(** The MIME type of the first payload-bearing chunk. *)
Definition mime_of_first (chunks : list Chunk) : option string :=
  match payloads chunks with
  | [] => None
  | (_, m) :: _ => m
  end.

(** The first MIME type found on a payload-bearing chunk. *)
Fixpoint first_mime (l : list (bytes * option string)) : option string :=
  match l with
  | [] => None
  | (_, Some m) :: _ => Some m
  | (_, None) :: rest => first_mime rest
  end.

(** The MIME type kept after a payload tagged [m] arrives. *)
Definition keep_first (mime m : option string) : option string :=
  match mime with
  | None => m
  | Some _ => mime
  end.

(** A chunk whose [candidates] list, and whose first candidate's [parts]
    list, is not an empty list where it is present. *)
Definition well_shaped (chunk : Chunk) : bool :=
  match candidates chunk with
  | None => true
  | Some [] => false
  | Some (c0 :: _) =>
      match content c0 with
      | None => true
      | Some ct =>
          match parts ct with
          | Some [] => false
          | _ => true
          end
      end
  end.

(** The cases in which the aggregated bytes are returned as they are. *)
Definition returned_raw (rt : Runtime) (mime : option string) : Prop :=
  mime = None \/ mime = Some EmptyString \/
  exists m, mime = Some m /\ guess_extension rt m = Some ".wav"%string.

(** *** Texts *)

(** Empty, or whitespace only. *)
Fixpoint all_space (s : string) : bool :=
  match s with
  | EmptyString => true
  | String c r => Str.isspace c && all_space r
  end.

(* ===================================================================== *)
(** ** The rest of the pipeline's vocabulary *)
(* ===================================================================== *)

(** A stream that yields [chunks] and then goes on as [rest]. *)
Fixpoint stream_then (chunks : list Chunk) (rest : Stream) : Stream :=
  match chunks with
  | [] => rest
  | c :: cs => SYield c (stream_then cs rest)
  end.

(** The chunk cut down to its first candidate and that candidate's first
    part. *)
Definition first_only (chunk : Chunk) : Chunk :=
  match candidates chunk with
  | Some (c0 :: _) =>
      mkChunk (Some [match content c0 with
                     | Some ct =>
                         match parts ct with
                         | Some (p :: _) => mkCandidate (Some (mkContent (Some [p])))
                         | _ => c0
                         end
                     | None => c0
                     end])
  | _ => chunk
  end.

(** A segment that gives neither field a value. *)
Definition ignored_segment (p : string) : bool :=
  match bits_of_param p, rate_of_param p with
  | None, None => true
  | _, _ => false
  end.

(* ===================================================================== *)
(** ** Conversation formatting and question generation *)
(* ===================================================================== *)

Module Interview.

Local Open Scope string_scope.

Definition nl : string := String "010" EmptyString.

(** [class ConversationMessage(BaseModel)] *)
Record ConversationMessage : Type := mkMessage
  { role : string;
    content : string }.

Definition label (msg : ConversationMessage) : string :=
  if String.eqb (role msg) "user" then "CANDIDATE" else "INTERVIEWER".

(** [format_conversation_for_gemini]: the loop appends one line per
    message to [formatted]. *)
Definition format_conversation_for_gemini
  (conversation_history : list ConversationMessage) : string :=
  fold_left
    (fun formatted msg => formatted ++ (label msg ++ ": " ++ content msg ++ nl))
    conversation_history "".

(** [str(n)] for an [int]. *)
Definition str_int (n : Z) : string :=
  match n with
  | Z0 => "0"
  | Zpos p => decimal p
  | Zneg p => "-" ++ decimal p
  end.

Definition system_prompt : string :=
     "You are a professional technical interviewer conducting a structured interview. " ++ nl ++
     "        Your role is to:" ++ nl ++
     "        1. Ask one clear, concise question at a time (2-3 sentences max)" ++ nl ++
     "        2. Be conversational and encouraging" ++ nl ++
     "        3. Focus on technical skills, problem-solving, and experience" ++ nl ++
     "        4. After receiving answers, acknowledge them briefly and move to the next question" ++ nl ++
     "        5. Generate progressively more advanced questions" ++ nl ++
     "        " ++ nl ++
     "        Keep your responses concise and professional.".

Definition question_prompt (conversation_text : string) (question_number : Z) : string :=
     "Based on this interview conversation so far:" ++ nl ++ nl ++
     conversation_text ++ nl ++ nl ++
     "Generate question number " ++
     str_int question_number ++
     " for the interview. " ++ nl ++
     "Ask a relevant follow-up question or move to a new topic if this is the first question." ++ nl ++
     "IMPORTANT: Return ONLY the question text, nothing else.".

Definition default_questions : list string :=
  [ "Tell me about yourself and your professional background.";
    "What is a challenging problem you've solved recently?";
    "Describe your experience with the technologies you've mentioned.";
    "How do you approach learning new technologies?";
    "Can you tell me about a time you worked in a team?" ].

(** [l[i]] for any [int] index: a negative index counts from the end. *)
Definition py_getitem {A} (l : list A) (i : Z) : result A :=
  let n := Z.of_nat (List.length l) in
  let j := if (i <? 0)%Z then (i + n)%Z else i in
  if ((0 <=? j) && (j <? n))%Z then getitem l (Z.to_nat j)
  else Raise (IndexError "list index out of range").

(** [client.models.generate_content(model=..., contents=..., config=...)]:
    from the model name and the text of the request to [response.text],
    which may be [None], or to an exception. *)
Definition TextClient : Type := string -> string -> result (option string).

Definition generate_question_with_gemini
  (client : TextClient) (conversation_history : list ConversationMessage)
  (question_number : Z) : result string :=
  let attempt :=
    let conversation_text := format_conversation_for_gemini conversation_history in
    let prompt := question_prompt conversation_text question_number in
    response_text <- client "gemini-2.0-flash" (system_prompt ++ nl ++ nl ++ prompt) ;;
    Ok (match response_text with
        | Some (String c r) => Str.strip (String c r)
        | _ => "Tell me about a challenging project you've worked on."
        end) in
  match attempt with
  | Ok question_text => Ok question_text
  | Raise _ =>
      py_getitem default_questions
        (Z.min (question_number - 1) (Z.of_nat (List.length default_questions) - 1))
  end.

(** What a JSON route answers: the dict it returns, or an HTTP error. *)
Inductive Reply (A : Type) : Type :=
| Json (body : A)
| HTTPError (status_code : Z) (detail : string).
Arguments Json {A} body.
Arguments HTTPError {A} status_code detail.

Record QuestionBody : Type := mkQuestionBody
  { status : string;
    question : string;
    questionNumber : Z }.

(** [POST /api/interview/question] *)
Definition generate_interview_question
  (rt : Runtime) (client : TextClient)
  (conversationHistory : list ConversationMessage) (questionNumber : Z)
  : Reply QuestionBody :=
  match generate_question_with_gemini client conversationHistory questionNumber with
  | Ok question => Json (mkQuestionBody "success" question questionNumber)
  | Raise e => HTTPError 500 (exn_str rt e)
  end.

(** *** The text handed to the JSON decoder in generate_analytics_dashboard *)

(** [s.split(sep)] for a separator of one or more characters: [skip] counts
    the characters of a separator just found that are still to be passed. *)
Fixpoint split_str_from (sep s : string) (skip : nat) : list string :=
  match s with
  | EmptyString => [EmptyString]
  | String c r =>
      match skip with
      | S k => split_str_from sep r k
      | O =>
          if Str.startswith s sep
          then EmptyString :: split_str_from sep r (String.length sep - 1)
          else match split_str_from sep r 0 with
               | h :: t => String c h :: t
               | [] => [String c EmptyString]
               end
      end
  end.

Definition split_str (sep s : string) : list string := split_str_from sep s 0.

(** [s[n:]] *)
Fixpoint drop (n : nat) (s : string) : string :=
  match n, s with
  | S k, String _ r => drop k r
  | _, _ => s
  end.

(** The lines between [response_text = response.text.strip()] and
    [json.loads(response_text)], on the stripped text. *)
Definition unfence (response_text : string) : result string :=
  if Str.startswith response_text "```" then
    response_text <- getitem (split_str "```" response_text) 1 ;;
    if Str.startswith response_text "json"
    then Ok (drop 4 response_text)
    else Ok response_text
  else Ok response_text.

Definition json_text (text : string) : result string :=
  unfence (Str.strip text).

(** The line of a message that [format_conversation_for_gemini] writes,
    without its line end. *)
Definition line (msg : ConversationMessage) : string :=
  label msg ++ ": " ++ content msg.

Definition one_line (msg : ConversationMessage) : bool :=
  negb (occurs "010" (content msg)).

(** The text generate_question_with_gemini sends. *)
Definition question_request
  (conversation_history : list ConversationMessage) (question_number : Z) : string :=
  system_prompt ++ nl ++ nl ++
  question_prompt (format_conversation_for_gemini conversation_history) question_number.

(** A client that fails every request, and one that always answers the
    same text. *)
Definition failing_client (msg : string) : TextClient :=
  fun _ _ => Raise (UpstreamError msg).

Definition answering_client (answer : option string) : TextClient :=
  fun _ _ => Ok answer.

End Interview.

(* ===================================================================== *)
(** ** Facts about the text primitives *)
(* ===================================================================== *)

Section TextFacts.

Local Open Scope string_scope.

Lemma scan_digits_decimal (d : Decimal.uint) :
  forall acc n,
    Str.scan_digits (NilEmpty.string_of_uint d) false acc n
    = Some (uint_value d acc, (n + Decimal.nb_digits d)%nat, EmptyString).
Proof.
  induction d; intros acc n;
    cbn [NilEmpty.string_of_uint Str.scan_digits uint_value Decimal.nb_digits];
    try (rewrite Nat.add_0_r; reflexivity);
    match goal with
    | |- context [Str.digit_value ?c] =>
        let v := eval vm_compute in (Str.digit_value c) in
        change (Str.digit_value c) with v
    end;
    cbv iota; rewrite IHd; rewrite Nat.add_succ_r; reflexivity.
Qed.

Lemma uint_value_acc (d : Decimal.uint) :
  forall acc, uint_value d (Z.pos acc) = Z.pos (Pos.of_uint_acc d acc).
Proof.
  induction d; intros acc; cbn [uint_value Pos.of_uint_acc];
    try reflexivity;
    rewrite <- IHd; f_equal; lia.
Qed.

Lemma uint_value_of_uint (d : Decimal.uint) :
  uint_value d 0 = Z.of_N (Pos.of_uint d).
Proof.
  induction d; cbn [uint_value Pos.of_uint]; try reflexivity;
    try (rewrite <- IHd; reflexivity);
    change (10 * 0 + _) with (Z.pos 1) || idtac.
  all: try (match goal with
            | |- uint_value _ ?z = _ =>
                let p := eval vm_compute in z in change z with p
            end; rewrite uint_value_acc; reflexivity).
Qed.

(** What [int] does with a digit sequence: the digit limit decides. *)
Lemma int_of_uint (d : Decimal.uint) :
  d <> Decimal.Nil ->
  Str.int (NilEmpty.string_of_uint d)
  = if (Str.int_max_str_digits <? Z.of_nat (Decimal.nb_digits d))%Z
    then Raise Str.exceeds_limit
    else Ok (uint_value d 0).
Proof.
  intros Hd.
  pose proof (scan_digits_decimal d 0 0) as Hscan.
  unfold Str.int.
  destruct d; [congruence | ..];
    cbn [NilEmpty.string_of_uint] in *;
    match goal with
    | |- context [Str.skip_int_space (String ?c ?r)] =>
        change (Str.skip_int_space (String c r)) with (String c r)
    end;
    cbv beta iota zeta;
    rewrite Hscan; cbn [Decimal.nb_digits Nat.add Str.skip_int_space];
    match goal with
    | |- context [(Str.int_max_str_digits <? ?n)%Z] =>
        destruct (Str.int_max_str_digits <? n)%Z;
        [reflexivity | rewrite Z.mul_1_l; reflexivity]
    end.
Qed.

Lemma length_string_of_uint (d : Decimal.uint) :
  String.length (NilEmpty.string_of_uint d) = Decimal.nb_digits d.
Proof.
  induction d; cbn [NilEmpty.string_of_uint String.length Decimal.nb_digits];
    congruence.
Qed.

Lemma int_of_decimal (p : positive) :
  Str.int (decimal p)
  = if (digits p <=? Str.int_max_str_digits)%Z then Ok (Z.pos p)
    else Raise Str.exceeds_limit.
Proof.
  unfold digits, decimal.
  rewrite int_of_uint by apply Unsigned.to_uint_nonnil.
  rewrite length_string_of_uint, uint_value_of_uint, Unsigned.of_to.
  rewrite Z.leb_antisym.
  destruct (Str.int_max_str_digits <? Z.of_nat (Decimal.nb_digits (Pos.to_uint p)))%Z;
    reflexivity.
Qed.

Lemma int_decimal (p : positive) :
  (digits p <= Str.int_max_str_digits)%Z -> Str.int (decimal p) = Ok (Z.pos p).
Proof.
  intros H. rewrite int_of_decimal.
  apply Z.leb_le in H. rewrite H. reflexivity.
Qed.

Lemma int_decimal_over_limit (p : positive) :
  (Str.int_max_str_digits < digits p)%Z ->
  Str.int (decimal p) = Raise Str.exceeds_limit.
Proof.
  intros H. rewrite int_of_decimal.
  apply Z.leb_gt in H. rewrite H. reflexivity.
Qed.

(** The numerals made of ones. *)
Lemma string_of_ones_uint (n : nat) :
  NilEmpty.string_of_uint (ones_uint n) = ones n.
Proof.
  induction n as [| n IH]; cbn [ones_uint NilEmpty.string_of_uint ones];
    congruence.
Qed.

Lemma append_ones_of_uint (n : nat) :
  forall p, append_ones n p = Pos.of_uint_acc (ones_uint n) p.
Proof.
  induction n as [| n IH]; intros p; cbn [append_ones ones_uint Pos.of_uint_acc];
    [reflexivity |].
  rewrite IH. reflexivity.
Qed.

Lemma decimal_append_ones (n : nat) : decimal (append_ones n 1) = ones (S n).
Proof.
  unfold decimal. rewrite append_ones_of_uint.
  pose proof (Unsigned.to_of (Decimal.D1 (ones_uint n))) as H.
  change (Pos.to_uint (Pos.of_uint_acc (ones_uint n) 1)
          = Decimal.D1 (ones_uint n)) in H.
  rewrite H. cbn [NilEmpty.string_of_uint ones].
  rewrite string_of_ones_uint. reflexivity.
Qed.

Lemma length_ones (n : nat) : String.length (ones n) = n.
Proof. induction n as [| n IH]; cbn [ones String.length]; congruence. Qed.

Lemma digits_append_ones (n : nat) : digits (append_ones n 1) = Z.of_nat (S n).
Proof. unfold digits. rewrite decimal_append_ones, length_ones. reflexivity. Qed.
End TextFacts.

Section DigitStrings.


Lemma all_digits_of_uint (d : Decimal.uint) :
  all_digits (NilEmpty.string_of_uint d) = true.
Proof. induction d; cbn [NilEmpty.string_of_uint all_digits]; auto. Qed.

Lemma decimal_nonempty (p : positive) : decimal p <> EmptyString.
Proof.
  unfold decimal. pose proof (Unsigned.to_uint_nonnil p) as Hn.
  destruct (Pos.to_uint p); cbn; congruence.
Qed.

Lemma digit_not_space (a : ascii) :
  Str.digit_value a <> None -> Str.isspace a = false.
Proof.
  unfold Str.digit_value, Str.isspace. set (n := Str.ord a). intros H.
  destruct (48 <=? n) eqn:E1; destruct (n <=? 57) eqn:E2;
    cbn [andb] in H; try congruence.
  apply Z.leb_le in E1, E2.
  destruct (Z.leb_spec 9 n), (Z.leb_spec n 13), (Z.leb_spec 28 n),
    (Z.leb_spec n 32), (Z.eqb_spec n 133), (Z.eqb_spec n 160);
    cbn [andb orb]; try reflexivity; lia.
Qed.

Lemma digit_not_char (a c : ascii) :
  Str.digit_value a <> None -> Str.digit_value c = None -> Ascii.eqb a c = false.
Proof.
  intros Ha Hc. destruct (Ascii.eqb_spec a c); [subst; congruence | reflexivity].
Qed.

Lemma all_digits_occurs (c : ascii) (s : string) :
  Str.digit_value c = None -> all_digits s = true -> occurs c s = false.
Proof.
  intros Hc. induction s as [| a r IH]; cbn [all_digits occurs]; [reflexivity |].
  destruct (Str.digit_value a) eqn:Ea; [| discriminate].
  intros Hr. rewrite (digit_not_char a c), IH by congruence. reflexivity.
Qed.

Lemma occurs_app (c : ascii) (s t : string) :
  occurs c (s ++ t)%string = occurs c s || occurs c t.
Proof.
  induction s as [| a r IH]; cbn [append occurs]; [reflexivity |].
  rewrite IH, orb_assoc. reflexivity.
Qed.

Lemma rstrip_all_digits (t : string) : all_digits t = true -> Str.rstrip t = t.
Proof.
  induction t as [| a r IH]; cbn [all_digits Str.rstrip]; [reflexivity |].
  destruct (Str.digit_value a) eqn:Ea; [| discriminate].
  intros Hr. rewrite (IH Hr).
  destruct r; [| reflexivity].
  rewrite digit_not_space by congruence. reflexivity.
Qed.

Lemma rstrip_app (s t : string) :
  t <> EmptyString -> Str.rstrip t = t -> Str.rstrip (s ++ t)%string = (s ++ t)%string.
Proof.
  intros Hne Ht. induction s as [| a r IH]; cbn [append Str.rstrip]; [exact Ht |].
  rewrite IH. destruct (r ++ t)%string eqn:E; [| reflexivity].
  destruct r; cbn in E; congruence.
Qed.

Lemma split_no_sep (sep : ascii) (s : string) :
  occurs sep s = false -> Str.split sep s = [s].
Proof.
  induction s as [| a r IH]; cbn [occurs Str.split]; [reflexivity |].
  intros H. apply orb_false_elim in H as [Ha Hr].
  rewrite Ha, (IH Hr). reflexivity.
Qed.

Lemma split_app (sep : ascii) (s t : string) :
  occurs sep s = false ->
  Str.split sep (s ++ String sep t)%string = s :: Str.split sep t.
Proof.
  induction s as [| a r IH]; cbn [occurs append].
  - intros _. cbn [Str.split]. rewrite Ascii.eqb_refl. reflexivity.
  - intros H. apply orb_false_elim in H as [Ha Hr].
    cbn [Str.split]. rewrite Ha, (IH Hr). reflexivity.
Qed.

End DigitStrings.

(* ===================================================================== *)
(** ** Facts about parse_audio_mime_type *)
(* ===================================================================== *)

Section ParseFacts.

Lemma int_raises_ValueError (s : string) (e : exn) :
  Str.int s = Raise e -> exists m, e = ValueError m.
Proof.
  unfold Str.int, Str.invalid_literal, Str.exceeds_limit.
  repeat match goal with
         | |- context [match ?x with _ => _ end] => destruct x
         | |- context [let '(_, _) := ?x in _] => destruct x
         end;
    intros H; inversion H; eauto.
Qed.

Lemma getitem_raises_IndexError {A} (l : list A) (i : nat) (e : exn) :
  getitem l i = Raise e -> exists m, e = IndexError m.
Proof.
  unfold getitem. destruct (nth_error l i); intros H; inversion H; eauto.
Qed.

(** A guarded assignment always completes. *)
Lemma guarded_int (l : list string) (old : Z) :
  except_ValueError_IndexError (x <- getitem l 1 ;; Str.int x) old
  = Ok (match (x <- getitem l 1 ;; Str.int x) with
        | Ok v => v
        | Raise _ => old
        end).
Proof.
  unfold bind. destruct (getitem l 1) as [x | e] eqn:E.
  - destruct (Str.int x) as [v | e] eqn:Ei; [reflexivity |].
    apply int_raises_ValueError in Ei as [m ->]. reflexivity.
  - apply getitem_raises_IndexError in E as [m ->]. reflexivity.
Qed.

Lemma parse_param_spec (st : AudioParameters) (p : string) :
  parse_param st p
  = Ok (mkParameters
          (match bits_of_param p with Some v => v | None => bits_per_sample st end)
          (match rate_of_param p with Some v => v | None => rate st end)).
Proof.
  unfold parse_param, bits_of_param, rate_of_param.
  destruct (Str.startswith (Str.lower (Str.strip p)) "rate=").
  - rewrite guarded_int. cbn [bind].
    destruct (x <- getitem (Str.split1 "=" (Str.strip p)) 1 ;; Str.int x);
      reflexivity.
  - destruct (Str.startswith (Str.strip p) "audio/L").
    + rewrite guarded_int. cbn [bind].
      destruct (x <- getitem (Str.split1 "L" (Str.strip p)) 1 ;; Str.int x);
        reflexivity.
    + destruct st; reflexivity.
Qed.

Lemma parse_params_spec (ps : list string) :
  forall st,
    parse_params ps st
    = Ok (mkParameters
            (last_set (map bits_of_param ps) (bits_per_sample st))
            (last_set (map rate_of_param ps) (rate st))).
Proof.
  induction ps as [| p ps IH]; intros st; cbn [parse_params map].
  - destruct st; reflexivity.
  - rewrite parse_param_spec. cbn [bind]. rewrite IH. reflexivity.
Qed.

Lemma parse_audio_mime_type_spec (s : string) :
  parse_audio_mime_type s
  = Ok (mkParameters (last_set (map bits_of_param (segments s)) 16)
                     (last_set (map rate_of_param (segments s)) 24000)).
Proof. unfold parse_audio_mime_type. rewrite parse_params_spec. reflexivity. Qed.

Lemma last_set_unset (of_param : string -> option Z) (ps : list string) (d : Z) :
  Forall (fun p => of_param p = None) ps -> last_set (map of_param ps) d = d.
Proof.
  unfold last_set. induction 1 as [| p ps Hp _ IH]; cbn [map fold_left];
    [reflexivity |].
  rewrite Hp. exact IH.
Qed.

Lemma last_set_test (of_param : string -> option Z) (test : Z -> bool)
  (ps : list string) :
  forall d,
    test d = true ->
    forallb (fun p => match of_param p with Some v => test v | None => true end) ps
    = true ->
    test (last_set (map of_param ps) d) = true.
Proof.
  unfold last_set.
  induction ps as [| p ps IH]; intros d Hd Hall; cbn [map fold_left forallb] in *;
    [exact Hd |].
  apply andb_prop in Hall as [Hp Hps].
  apply IH; [| exact Hps]. destruct (of_param p); assumption.
Qed.

End ParseFacts.

Section WellFormed.

Variable t : string.
Hypothesis t_nonempty : t <> EmptyString.
Hypothesis t_digits : all_digits t = true.

Lemma strip_audio_L : Str.strip ("audio/L" ++ t) = ("audio/L" ++ t)%string.
Proof.
  unfold Str.strip.
  change (Str.lstrip ("audio/L" ++ t)) with ("audio/L" ++ t)%string.
  apply rstrip_app; [assumption | apply rstrip_all_digits; assumption].
Qed.

Lemma strip_rate : Str.strip ("rate=" ++ t) = ("rate=" ++ t)%string.
Proof.
  unfold Str.strip.
  change (Str.lstrip ("rate=" ++ t)) with ("rate=" ++ t)%string.
  apply rstrip_app; [assumption | apply rstrip_all_digits; assumption].
Qed.

Lemma bits_of_audio_L :
  bits_of_param ("audio/L" ++ t)
  = match Str.int t with Ok v => Some v | Raise _ => None end.
Proof. unfold bits_of_param. rewrite strip_audio_L. reflexivity. Qed.

Lemma rate_of_audio_L : rate_of_param ("audio/L" ++ t) = None.
Proof. unfold rate_of_param. rewrite strip_audio_L. reflexivity. Qed.

Lemma rate_of_rate :
  rate_of_param ("rate=" ++ t)
  = match Str.int t with Ok v => Some v | Raise _ => None end.
Proof. unfold rate_of_param. rewrite strip_rate. reflexivity. Qed.

Lemma bits_of_rate : bits_of_param ("rate=" ++ t) = None.
Proof. unfold bits_of_param. rewrite strip_rate. reflexivity. Qed.

End WellFormed.

Lemma segments_well_formed (b r : string) :
  all_digits b = true -> all_digits r = true ->
  segments ("audio/L" ++ b ++ ";rate=" ++ r)
  = [("audio/L" ++ b)%string; ("rate=" ++ r)%string].
Proof.
  intros Hb Hr. unfold segments.
  change ("audio/L" ++ b ++ ";rate=" ++ r)%string
    with (("audio/L" ++ b) ++ String ";" ("rate=" ++ r))%string.
  rewrite split_app.
  - rewrite split_no_sep; [reflexivity |].
    rewrite occurs_app, (all_digits_occurs ";" r) by (assumption || reflexivity).
    reflexivity.
  - rewrite occurs_app, (all_digits_occurs ";" b) by (assumption || reflexivity).
    reflexivity.
Qed.

(** On [audio/L<b>;rate=<r>] each field is its numeral's value when [int]
    accepts the numeral, and its default when the numeral is over the digit
    limit. *)
Lemma parse_well_formed (b r : positive) :
  parse_audio_mime_type ("audio/L" ++ decimal b ++ ";rate=" ++ decimal r)
  = Ok (mkParameters
          (if digits b <=? Str.int_max_str_digits then Z.pos b else 16)
          (if digits r <=? Str.int_max_str_digits then Z.pos r else 24000)).
Proof.
  rewrite parse_audio_mime_type_spec.
  rewrite segments_well_formed by apply all_digits_of_uint.
  cbn [map]. unfold last_set. cbn [fold_left].
  rewrite bits_of_audio_L, rate_of_audio_L, bits_of_rate, rate_of_rate
    by (apply decimal_nonempty || apply all_digits_of_uint).
  rewrite !int_of_decimal.
  destruct (digits b <=? Str.int_max_str_digits),
    (digits r <=? Str.int_max_str_digits); reflexivity.
Qed.

(* ===================================================================== *)
(** ** Facts about struct.pack and the container *)
(* ===================================================================== *)

Section PackFacts.

Lemma uint_fits (code : ascii) (size : nat) (v : Z) :
  0 <= v < 2 ^ (8 * Z.of_nat size) ->
  Struct.uint code size v = Ok (le_split size v).
Proof.
  intros [H0 H1]. unfold Struct.uint.
  apply Z.leb_le in H0. apply Z.ltb_lt in H1. rewrite H0, H1. reflexivity.
Qed.

Lemma uint4_fits (code : ascii) (v : Z) :
  0 <= v < 4294967296 -> Struct.uint code 4 v = Ok (le_split 4 v).
Proof. exact (uint_fits code 4 v). Qed.

Lemma uint2_fits (code : ascii) (v : Z) :
  0 <= v < 65536 -> Struct.uint code 2 v = Ok (le_split 2 v).
Proof. exact (uint_fits code 2 v). Qed.

Lemma uint_overflow (code : ascii) (size : nat) (v : Z) :
  2 ^ (8 * Z.of_nat size) <= v ->
  Struct.uint code size v = Raise (StructError code v).
Proof.
  intros H. unfold Struct.uint.
  apply Z.ltb_ge in H. rewrite H, andb_false_r. reflexivity.
Qed.

Lemma uint_negative (code : ascii) (size : nat) (v : Z) :
  v < 0 -> Struct.uint code size v = Raise (StructError code v).
Proof.
  intros H. unfold Struct.uint.
  apply Z.leb_gt in H. rewrite H. reflexivity.
Qed.

Lemma uint_length (code : ascii) (size : nat) (v : Z) (b : bytes) :
  Struct.uint code size v = Ok b -> List.length b = size.
Proof.
  unfold Struct.uint. destruct (_ && _); intros H; inversion H.
  apply length_le_split.
Qed.

Lemma pack_field_length (f : Struct.field) (b : bytes) :
  Struct.pack_field f = Ok b -> List.length b = field_size f.
Proof.
  destruct f; cbn [Struct.pack_field field_size]; try apply uint_length.
  intros H. inversion H.
  rewrite length_firstn, length_app, repeat_length. lia.
Qed.

Lemma pack_length (fs : list Struct.field) :
  forall b, Struct.pack fs = Ok b ->
            List.length b = fold_right (fun f n => (field_size f + n)%nat) 0%nat fs.
Proof.
  induction fs as [| f fs IH]; cbn [Struct.pack fold_right]; intros b H.
  - inversion H. reflexivity.
  - destruct (Struct.pack_field f) as [bf |] eqn:Ef; cbn [bind] in H; [| discriminate].
    destruct (Struct.pack fs) as [bs |] eqn:Es; cbn [bind] in H; [| discriminate].
    inversion H. rewrite length_app, (pack_field_length _ _ Ef), (IH _ eq_refl).
    reflexivity.
Qed.

(** Whatever the parameters, a container that is produced is 44 bytes
    longer than the data and ends with it. *)
Lemma wav_container_shape (P : bytes) (D : AudioParameters) (w : bytes) :
  wav_container P D = Ok w ->
  exists header, w = header ++ P /\ List.length header = 44%nat.
Proof.
  unfold wav_container.
  match goal with
  | |- context [Struct.pack ?fs] => destruct (Struct.pack fs) as [h |] eqn:E
  end; cbn [bind]; intros H; inversion H.
  exists h. split; [reflexivity |]. apply pack_length in E. exact E.
Qed.

Lemma len_nonneg (b : bytes) : 0 <= len b.
Proof. unfold len. lia. Qed.

Lemma len_app (a b : bytes) : len (a ++ b) = len a + len b.
Proof. unfold len. rewrite length_app. lia. Qed.

Lemma uint_at_le_split (header : bytes) (off n : nat) (v : Z) :
  slice header off n = le_split n v ->
  0 <= v < 2 ^ (Z.of_nat n * 8) ->
  uint_at header off n = v.
Proof.
  intros Hs Hv. unfold uint_at. rewrite Hs, le_combine_split.
  apply Z.mod_small. exact Hv.
Qed.

Lemma fits_header_ranges (n : Z) (D : AudioParameters) :
  0 <= n -> fits_header n D ->
  0 <= 36 + n < 4294967296 /\ 0 <= n < 4294967296 /\
  0 <= bits_per_sample D < 65536 /\
  0 <= bits_per_sample D / 8 < 65536 /\
  0 <= rate D < 4294967296 /\
  0 <= rate D * (bits_per_sample D / 8) < 4294967296.
Proof.
  intros Hn0 (Hn & Hb & Hr & Hbr).
  change (2 ^ 32) with 4294967296 in *. change (2 ^ 16) with 65536 in *.
  assert (Hq : 0 <= bits_per_sample D / 8 < 65536).
  { split; [apply Z.div_pos; lia |].
    apply Z.div_lt_upper_bound; clear Hbr; lia. }
  assert (Hm : 0 <= rate D * (bits_per_sample D / 8))
    by (apply Z.mul_nonneg_nonneg; lia).
  repeat split; lia.
Qed.

Lemma wav_container_fits (P : bytes) (D : AudioParameters) :
  fits_header (len P) D ->
  wav_container P D = Ok (canonical_header (len P) D ++ P).
Proof.
  intros Hfits.
  destruct (fits_header_ranges (len P) D (len_nonneg P) Hfits)
    as (H1 & H2 & H3 & H4 & H5 & H6).
  unfold wav_container.
  cbn [Struct.pack Struct.pack_field].
  rewrite !Z.mul_1_l.
  rewrite (uint4_fits "I" (36 + len P)) by assumption.
  rewrite (uint4_fits "I" 16) by lia.
  rewrite !(uint2_fits "H" 1) by lia.
  rewrite (uint4_fits "I" (rate D)) by assumption.
  rewrite (uint4_fits "I" (rate D * (bits_per_sample D / 8))) by assumption.
  rewrite (uint2_fits "H" (bits_per_sample D / 8)) by assumption.
  rewrite (uint2_fits "H" (bits_per_sample D)) by assumption.
  rewrite (uint4_fits "I" (len P)) by assumption.
  reflexivity.
Qed.

Lemma canonical_header_length (n : Z) (D : AudioParameters) :
  List.length (canonical_header n D) = 44%nat.
Proof. reflexivity. Qed.

Lemma canonical_container (P : bytes) (D : AudioParameters) :
  fits_header (len P) D ->
  is_wav_container P D (canonical_header (len P) D ++ P).
Proof.
  intros Hfits.
  destruct (fits_header_ranges (len P) D (len_nonneg P) Hfits)
    as (H1 & H2 & H3 & H4 & H5 & H6).
  exists (canonical_header (len P) D).
  repeat split; try reflexivity;
    (apply uint_at_le_split;
     [reflexivity
     | change (2 ^ (Z.of_nat 4 * 8)) with 4294967296;
       change (2 ^ (Z.of_nat 2 * 8)) with 65536; assumption || lia]).
Qed.

End PackFacts.

(* ===================================================================== *)
(** ** Facts about the silent fallback *)
(* ===================================================================== *)

Section SilenceFacts.

Lemma concat_repeat_pair (a : byte) (n : nat) :
  List.concat (repeat [a; a] n) = repeat a (2 * n).
Proof.
  induction n as [| n IH]; [reflexivity |].
  replace (2 * S n)%nat with (S (S (2 * n))) by lia.
  cbn [repeat List.concat app]. rewrite IH. reflexivity.
Qed.

Lemma silence_is_zeros : silence = one_second_of_silence.
Proof.
  unfold silence, one_second_of_silence.
  rewrite concat_repeat_pair. apply (f_equal (repeat Byte.x00)). lia.
Qed.

Lemma len_one_second : len one_second_of_silence = 48000.
Proof.
  unfold len, one_second_of_silence. rewrite repeat_length. lia.
Qed.

Lemma wave_write_pcm16_24k (frames : bytes) :
  len frames = 48000 ->
  Wave.write 1 2 24000 frames
  = Ok (canonical_header (len frames) pcm16_24k ++ frames).
Proof.
  intros H. unfold Wave.write. rewrite H. reflexivity.
Qed.

Lemma minimal_wav_eq : minimal_wav = Ok silent_container.
Proof.
  unfold minimal_wav, silent_container. rewrite silence_is_zeros.
  apply wave_write_pcm16_24k, len_one_second.
Qed.

Lemma fits_one_second : fits_header (len one_second_of_silence) pcm16_24k.
Proof.
  unfold fits_header. rewrite len_one_second. cbn [pcm16_24k bits_per_sample rate].
  change (2 ^ 32) with 4294967296. change (2 ^ 16) with 65536.
  change (16 / 8) with 2. lia.
Qed.

Lemma silent_container_is_wav :
  is_wav_container one_second_of_silence pcm16_24k silent_container.
Proof. apply canonical_container, fits_one_second. Qed.

Lemma is_wav_container_len (P : bytes) (D : AudioParameters) (w : bytes) :
  is_wav_container P D w -> len w = 44 + len P.
Proof.
  intros (h & -> & Hh & _). rewrite len_app. unfold len at 1. rewrite Hh. lia.
Qed.

Lemma len_silent_container : len silent_container = 44 + 48000.
Proof.
  rewrite (is_wav_container_len _ _ _ silent_container_is_wav), len_one_second.
  reflexivity.
Qed.

Lemma silent_container_nonempty : silent_container <> [].
Proof.
  intros H. pose proof len_silent_container as L. rewrite H in L.
  discriminate L.
Qed.

End SilenceFacts.

(* ===================================================================== *)
(** ** Facts about the aggregation loop *)
(* ===================================================================== *)

Section AggregateFacts.

Lemma on_chunk_well_shaped (buf : bytes) (mime : option string) (c : Chunk) :
  well_shaped c = true ->
  on_chunk (buf, mime) c
  = Ok (match payload_of c with
        | Some (d, m) => (buf ++ d, keep_first mime m)
        | None => (buf, mime)
        end).
Proof.
  destruct c as [cands]. destruct cands as [[| [ct] cs] |];
    [discriminate | | reflexivity].
  destruct ct as [[ps] |]; [| reflexivity].
  destruct ps as [[| p ps] |]; [discriminate | | reflexivity].
  intros _. unfold on_chunk, payload_of.
  cbn [candidates content parts getitem nth_error bind].
  destruct (inline_data p) as [[[[| b d] |] m] |]; reflexivity.
Qed.

Lemma first_mime_keep (mime : option string) (l : list (bytes * option string))
  (d : bytes) (m : option string) :
  keep_first (keep_first mime m) (first_mime l)
  = keep_first mime (first_mime ((d, m) :: l)).
Proof. destruct mime, m; reflexivity. Qed.

Lemma aggregate_well_shaped (chunks : list Chunk) :
  forallb well_shaped chunks = true ->
  forall buf mime,
    aggregate (stream_of chunks) (buf, mime)
    = Ok (buf ++ payload_bytes chunks,
          keep_first mime (first_mime (payloads chunks))).
Proof.
  unfold payload_bytes.
  induction chunks as [| c chunks IH]; cbn [forallb stream_of aggregate payloads].
  - intros _ buf mime. cbn [map List.concat]. rewrite app_nil_r.
    destruct mime; reflexivity.
  - intros H buf mime. apply andb_prop in H as [Hc Hcs].
    rewrite (on_chunk_well_shaped _ _ _ Hc). cbn [bind].
    destruct (payload_of c) as [[d m] |].
    + rewrite (IH Hcs). cbn [map fst List.concat].
      rewrite app_assoc, (first_mime_keep mime (payloads chunks) d m). reflexivity.
    + apply (IH Hcs).
Qed.

Lemma mime_of_first_found (chunks : list Chunk) (m : string) :
  mime_of_first chunks = Some m -> first_mime (payloads chunks) = Some m.
Proof.
  unfold mime_of_first. destruct (payloads chunks) as [| [d [m' |]] l];
    cbn [first_mime]; congruence.
Qed.

End AggregateFacts.

(* ===================================================================== *)
(** ** Facts about the pipeline *)
(* ===================================================================== *)

Section PipelineFacts.

Variable rt : Runtime.

Lemma body_of_aggregate (s : Stream) (acc : Acc) :
  aggregate s ([], None) = Ok acc ->
  generate_speech_body rt s = deliver rt acc.
Proof. intros H. unfold generate_speech_body. rewrite H. reflexivity. Qed.

Lemma body_raises (s : Stream) (e : exn) :
  aggregate s ([], None) = Raise e ->
  generate_speech_body rt s = Raise e.
Proof. intros H. unfold generate_speech_body. rewrite H. reflexivity. Qed.

Lemma body_inv (s : Stream) (b : bytes) :
  generate_speech_body rt s = Ok b ->
  exists acc, aggregate s ([], None) = Ok acc /\ deliver rt acc = Ok b.
Proof.
  unfold generate_speech_body.
  destruct (aggregate s ([], None)) as [acc |]; cbn [bind]; [| discriminate].
  intros H. exists acc. split; [reflexivity | exact H].
Qed.

Lemma generate_speech_ok (provider : Provider) (text : string) (w : World) (b : bytes) :
  generate_speech_body rt (provider text) = Ok b ->
  generate_speech_with_gemini rt provider text w
  = (b, mkWorld (upstream_calls w ++ [text])).
Proof.
  intros H. unfold generate_speech_with_gemini, call_upstream.
  rewrite H. reflexivity.
Qed.

Lemma generate_speech_raise (provider : Provider) (text : string) (w : World) (e : exn) :
  generate_speech_body rt (provider text) = Raise e ->
  generate_speech_with_gemini rt provider text w
  = (on_exception rt e, mkWorld (upstream_calls w ++ [text])).
Proof.
  intros H. unfold generate_speech_with_gemini, call_upstream.
  rewrite H. reflexivity.
Qed.

Lemma on_exception_quota (e : exn) :
  quota_signature (exn_str rt e) = true -> on_exception rt e = [].
Proof. intros H. unfold on_exception. rewrite H. reflexivity. Qed.

Lemma on_exception_other (e : exn) :
  quota_signature (exn_str rt e) = false -> on_exception rt e = silent_container.
Proof.
  intros H. unfold on_exception. rewrite H, minimal_wav_eq. reflexivity.
Qed.

Lemma deliver_empty (mime : option string) :
  deliver rt ([], mime) = Ok silent_container.
Proof. unfold deliver. rewrite minimal_wav_eq. reflexivity. Qed.

Lemma deliver_raw (audio : bytes) (mime : option string) :
  audio <> [] -> returned_raw rt mime -> deliver rt (audio, mime) = Ok audio.
Proof.
  intros Ha Hraw. destruct audio as [| a l]; [congruence |].
  unfold deliver.
  destruct Hraw as [-> | [-> | (m & -> & Hext)]]; try reflexivity.
  destruct m as [| c m']; [reflexivity |].
  rewrite Hext. reflexivity.
Qed.

Lemma deliver_wrap (audio : bytes) (m : string) :
  audio <> [] -> m <> EmptyString ->
  guess_extension rt m <> Some ".wav"%string ->
  deliver rt (audio, Some m) = convert_to_wav audio m.
Proof.
  intros Ha Hm Hext. destruct audio as [| a l]; [congruence |].
  destruct m as [| c m']; [congruence |].
  unfold deliver.
  destruct (guess_extension rt (String c m')) as [ext |]; [| reflexivity].
  destruct (String.eqb_spec ext ".wav") as [-> | Hne]; [congruence | reflexivity].
Qed.

(** Every way out of [deliver] without an exception. *)
Lemma deliver_inv (audio : bytes) (mime : option string) (b : bytes) :
  deliver rt (audio, mime) = Ok b ->
  (audio = [] /\ b = silent_container) \/
  (audio <> [] /\ b = audio /\ returned_raw rt mime) \/
  (audio <> [] /\ exists m, mime = Some m /\ convert_to_wav audio m = Ok b).
Proof.
  destruct audio as [| a l].
  - rewrite deliver_empty. intros H. inversion H. left. split; reflexivity.
  - intros H. right.
    assert (Hne : a :: l <> []) by discriminate.
    destruct mime as [m |].
    + destruct m as [| c m'].
      * rewrite deliver_raw in H by (auto; right; left; reflexivity).
        inversion H. left. repeat split; auto. right. left. reflexivity.
      * destruct (guess_extension rt (String c m')) as [ext |] eqn:Hext.
        -- destruct (String.eqb_spec ext ".wav") as [-> | Hw].
           ++ rewrite deliver_raw in H by (auto; right; right; eauto).
              inversion H. left. repeat split; auto. right. right. eauto.
           ++ rewrite deliver_wrap in H by (auto; congruence).
              right. split; [exact Hne |]. eauto.
        -- rewrite deliver_wrap in H by (auto; congruence).
           right. split; [exact Hne |]. eauto.
    + rewrite deliver_raw in H by (auto; left; reflexivity).
      inversion H. left. repeat split; auto. left. reflexivity.
Qed.

Lemma convert_to_wav_shape (audio : bytes) (m : string) (b : bytes) :
  convert_to_wav audio m = Ok b ->
  exists header, b = header ++ audio /\ List.length header = 44%nat.
Proof.
  unfold convert_to_wav. rewrite parse_audio_mime_type_spec. cbn [bind].
  apply wav_container_shape.
Qed.

End PipelineFacts.

Lemma lstrip_all_space (s : string) : all_space s = true -> Str.lstrip s = EmptyString.
Proof.
  induction s as [| c r IH]; cbn [all_space Str.lstrip]; [reflexivity |].
  intros H. apply andb_prop in H as [Hc Hr]. rewrite Hc. exact (IH Hr).
Qed.

Lemma strip_all_space (s : string) : all_space s = true -> Str.strip s = EmptyString.
Proof. intros H. unfold Str.strip. rewrite (lstrip_all_space s H). reflexivity. Qed.

(* ===================================================================== *)
(** ** The container synthesizer *)
(* ===================================================================== *)

(** C1, as amended.  For every payload [P] and every descriptor [D] whose
    values fit the header's fixed-width fields (bits per sample below
    2^16, sample rate and byte rate below 2^32, 36 + len(P) below 2^32,
    none negative), the packing step of convert_to_wav returns a 44-byte
    header followed by [P] unmodified; the header reads, little-endian and
    in this order: "RIFF", chunk size 36 + len(P), "WAVE", "fmt ", 16, PCM
    code 1, channel count 1, sample rate, byte rate, block align, bits per
    sample, "data", data size len(P). *)
Theorem wav_container_layout (P : bytes) (D : AudioParameters) :
  fits_header (len P) D ->
  exists w, wav_container P D = Ok w /\ is_wav_container P D w.
Proof.
  intros Hfits. exists (canonical_header (len P) D ++ P).
  split; [apply wav_container_fits | apply canonical_container]; exact Hfits.
Qed.

Lemma fits_abcd : fits_header (len (b_ "abcd")) pcm16_24k.
Proof.
  unfold fits_header.
  change (len (b_ "abcd")) with 4. cbn [pcm16_24k bits_per_sample rate].
  change (2 ^ 32) with 4294967296. change (2 ^ 16) with 65536.
  change (16 / 8) with 2. lia.
Qed.

Lemma wav_container_layout_witness :
  fits_header (len (b_ "abcd")) pcm16_24k /\
  exists w, wav_container (b_ "abcd") pcm16_24k = Ok w /\
            is_wav_container (b_ "abcd") pcm16_24k w.
Proof.
  split; [exact fits_abcd | exact (wav_container_layout _ _ fits_abcd)].
Defined.

(** C1 as stated fails: a descriptor of 65536 bits per sample at 24000 Hz
    satisfies the descriptor invariant, and packing it raises instead of
    returning a container. *)
Lemma wav_container_overflow :
  wav_container [] (mkParameters 65536 24000) = Raise (StructError "H" 65536) /\
  ~ exists w, wav_container [] (mkParameters 65536 24000) = Ok w /\
              is_wav_container [] (mkParameters 65536 24000) w.
Proof.
  assert (H : wav_container [] (mkParameters 65536 24000)
              = Raise (StructError "H" 65536)) by (vm_compute; reflexivity).
  split; [exact H |]. intros (w & Hw & _). rewrite H in Hw. discriminate Hw.
Qed.

(* ===================================================================== *)
(** ** The MIME descriptor parser *)
(* ===================================================================== *)

(** C2, as amended.  On every input string parse_audio_mime_type returns a
    descriptor (no exception leaves it); on [audio/L<b>;rate=<r>] with the
    decimal numerals of positive integers [b] and [r] of at most 4300
    digits each (the limit of [int]) it returns exactly [b] and [r], and a
    numeral over that limit leaves its field at the default; a field that
    no segment of the input gives a value (the segment is missing, is not
    recognised, or does not parse) has its default, 16 bits and 24000 Hz;
    so on "audio/ogg", "" and "rate=abc". *)
Theorem parse_audio_mime_type_permissive :
  (forall s, exists d, parse_audio_mime_type s = Ok d) /\
  (forall b r : positive,
      digits b <= Str.int_max_str_digits ->
      digits r <= Str.int_max_str_digits ->
      parse_audio_mime_type ("audio/L" ++ decimal b ++ ";rate=" ++ decimal r)
      = Ok (mkParameters (Z.pos b) (Z.pos r))) /\
  (forall (b r : positive) (d : AudioParameters),
      parse_audio_mime_type ("audio/L" ++ decimal b ++ ";rate=" ++ decimal r) = Ok d ->
      (Str.int_max_str_digits < digits b -> bits_per_sample d = 16) /\
      (Str.int_max_str_digits < digits r -> rate d = 24000)) /\
  (forall s d,
      parse_audio_mime_type s = Ok d ->
      (unset bits_of_param s -> bits_per_sample d = 16) /\
      (unset rate_of_param s -> rate d = 24000)) /\
  parse_audio_mime_type "audio/ogg" = Ok default_parameters /\
  parse_audio_mime_type "" = Ok default_parameters /\
  parse_audio_mime_type "rate=abc" = Ok default_parameters.
Proof.
  split; [| split; [| split; [| split; [| repeat split; reflexivity]]]].
  - intros s. rewrite parse_audio_mime_type_spec. eauto.
  - intros b r Hb Hr. rewrite parse_well_formed.
    apply Z.leb_le in Hb, Hr. rewrite Hb, Hr. reflexivity.
  - intros b r d. rewrite parse_well_formed. intros H. injection H as <-.
    cbn [bits_per_sample rate].
    split; intros Hover; apply Z.leb_gt in Hover; rewrite Hover; reflexivity.
  - intros s d. rewrite parse_audio_mime_type_spec. intros H. inversion H.
    cbn [bits_per_sample rate]. split; intros Hu; apply last_set_unset; exact Hu.
Qed.

(** C2 as stated fails: the positive integer written with 4301 ones is over
    the digit limit of [int]; as the rate of a well-formed input it is not
    returned, the rate is the default. *)
Lemma parse_numeral_over_limit :
  decimal ones_4301 = ones 4301 /\
  parse_audio_mime_type ("audio/L" ++ decimal 16 ++ ";rate=" ++ decimal ones_4301)
  = Ok (mkParameters 16 24000) /\
  Z.pos ones_4301 <> 24000.
Proof.
  assert (Hd : decimal ones_4301 = ones 4301) by apply decimal_append_ones.
  split; [exact Hd |]. split.
  - rewrite parse_well_formed.
    unfold ones_4301. rewrite digits_append_ones. reflexivity.
  - intros H. assert (Hp : ones_4301 = 24000%positive) by congruence.
    rewrite Hp in Hd.
    apply (f_equal (fun s => match s with
                             | String c _ => Some c
                             | EmptyString => None
                             end)) in Hd.
    discriminate Hd.
Qed.

(** C8, as amended.  For every input string, the descriptor returned by
    parse_audio_mime_type satisfies the invariant (bits per sample a
    positive multiple of 8, sample rate positive) provided every value
    that a segment of the input gives a field does; the parser itself
    checks no value. *)
Theorem parse_keeps_invariant (s : string) (d : AudioParameters) :
  parse_audio_mime_type s = Ok d ->
  all_set bits_of_param bits_ok s = true ->
  all_set rate_of_param rate_ok s = true ->
  descriptor_invariant d.
Proof.
  rewrite parse_audio_mime_type_spec. intros H Hb Hr. inversion H.
  pose proof (last_set_test bits_of_param bits_ok (segments s) 16 eq_refl Hb) as Tb.
  pose proof (last_set_test rate_of_param rate_ok (segments s) 24000 eq_refl Hr) as Tr.
  unfold bits_ok in Tb. unfold rate_ok in Tr.
  apply andb_prop in Tb as [Tb1 Tb2].
  apply Z.ltb_lt in Tb1, Tr. apply Z.eqb_eq in Tb2.
  unfold descriptor_invariant. cbn [bits_per_sample rate]. auto.
Qed.

Lemma parse_keeps_invariant_witness :
  parse_audio_mime_type "audio/L24;rate=48000" = Ok (mkParameters 24 48000) /\
  all_set bits_of_param bits_ok "audio/L24;rate=48000" = true /\
  all_set rate_of_param rate_ok "audio/L24;rate=48000" = true /\
  descriptor_invariant (mkParameters 24 48000).
Proof.
  split; [reflexivity |]. split; [reflexivity |]. split; [reflexivity |].
  exact (parse_keeps_invariant "audio/L24;rate=48000" (mkParameters 24 48000)
           eq_refl eq_refl eq_refl).
Defined.

(** C8 as stated fails: 12 bits and a rate of 0 are parsed and returned. *)
Lemma parse_breaks_invariant :
  parse_audio_mime_type "audio/L12;rate=0" = Ok (mkParameters 12 0) /\
  ~ descriptor_invariant (mkParameters 12 0).
Proof.
  split; [reflexivity |].
  unfold descriptor_invariant. cbn [bits_per_sample rate].
  intros (_ & _ & H). lia.
Qed.

(* ===================================================================== *)
(** ** The aggregation loop *)
(* ===================================================================== *)

(** C5, as amended.  For every finite chunk stream in which no chunk
    carries an empty [candidates] list or an empty [parts] list, the loop
    ends without error with, as payload, the concatenation in arrival order
    of the payloads of exactly the payload-bearing chunks, and, as MIME
    type, the first MIME type found on a payload-bearing chunk: that of
    the first payload-bearing chunk whenever that chunk carries one. *)
Theorem aggregate_payloads (chunks : list Chunk) :
  forallb well_shaped chunks = true ->
  aggregate (stream_of chunks) ([], None)
  = Ok (payload_bytes chunks, first_mime (payloads chunks)) /\
  (forall m, mime_of_first chunks = Some m ->
             first_mime (payloads chunks) = Some m).
Proof.
  intros H. split.
  - rewrite (aggregate_well_shaped chunks H). reflexivity.
  - apply mime_of_first_found.
Qed.

(** The spec's example stream, for any MIME type [mime1]. *)
Lemma aggregate_audio_note_more (mime1 : string) :
  aggregate
    (stream_of [audio_chunk (b_ "audio") (Some mime1);
                text_chunk "note";
                audio_chunk (b_ "more") (Some mime1)])
    ([], None)
  = Ok (b_ "audio" ++ b_ "more", Some mime1).
Proof. reflexivity. Qed.

Lemma aggregate_payloads_witness :
  aggregate
    (stream_of [audio_chunk (b_ "audio") (Some "audio/L16;rate=24000"%string);
                text_chunk "note"; empty_chunk;
                audio_chunk (b_ "more") (Some "audio/L16;rate=24000"%string)])
    ([], None)
  = Ok (b_ "audio" ++ b_ "more", Some "audio/L16;rate=24000"%string).
Proof.
  exact (proj1 (aggregate_payloads
    [audio_chunk (b_ "audio") (Some "audio/L16;rate=24000"%string);
     text_chunk "note"; empty_chunk;
     audio_chunk (b_ "more") (Some "audio/L16;rate=24000"%string)] eq_refl)).
Defined.

(** A chunk whose [candidates] list is empty is not skipped: the subscript
    raises, and the pipeline goes to its handler. *)
Lemma aggregate_empty_candidates :
  aggregate (stream_of [mkChunk (Some [])]) ([], None)
  = Raise (IndexError "list index out of range").
Proof. reflexivity. Qed.

(** C5 as stated fails: when the first payload-bearing chunk carries no
    MIME type, the loop records the MIME type of a later chunk. *)
Lemma aggregate_mime_of_later_chunk :
  aggregate
    (stream_of [audio_chunk (b_ "a") None;
                audio_chunk (b_ "b") (Some "audio/L16;rate=24000"%string)])
    ([], None)
  = Ok (b_ "ab", Some "audio/L16;rate=24000"%string) /\
  mime_of_first [audio_chunk (b_ "a") None;
                 audio_chunk (b_ "b") (Some "audio/L16;rate=24000"%string)]
  = None /\
  aggregate
    (stream_of [audio_chunk (b_ "a") None;
                audio_chunk (b_ "b") (Some "audio/L16;rate=24000"%string)])
    ([], None)
  <> Ok (payload_bytes [audio_chunk (b_ "a") None;
                        audio_chunk (b_ "b") (Some "audio/L16;rate=24000"%string)],
         mime_of_first [audio_chunk (b_ "a") None;
                        audio_chunk (b_ "b") (Some "audio/L16;rate=24000"%string)]).
Proof. repeat split; try reflexivity. discriminate. Qed.

(* ===================================================================== *)
(** ** The fallback decision tree *)
(* ===================================================================== *)

(** C3.  When the stream ends with an empty aggregated payload and nothing
    raised, and when requesting or aggregating raises an exception whose
    text has no quota signature, generate_speech_with_gemini returns the
    same bytes: a WAV container for 16-bit mono PCM at 24000 Hz holding one
    second of silence, 44 + 48000 bytes long. *)
Theorem silent_fallback (rt : Runtime) (provider : Provider) (text : string) (w : World) :
  (exists mime, aggregate (provider text) ([], None) = Ok ([], mime)) \/
  (exists e, aggregate (provider text) ([], None) = Raise e /\
             quota_signature (exn_str rt e) = false) ->
  fst (generate_speech_with_gemini rt provider text w) = silent_container /\
  is_wav_container one_second_of_silence pcm16_24k silent_container /\
  len silent_container = 44 + 48000.
Proof.
  intros H. split; [| split; [exact silent_container_is_wav | exact len_silent_container]].
  destruct H as [(mime & H) | (e & H & Hq)].
  - rewrite (generate_speech_ok rt provider text w silent_container); [reflexivity |].
    rewrite (body_of_aggregate rt _ _ H). apply deliver_empty.
  - rewrite (generate_speech_raise rt provider text w e); [| apply body_raises, H].
    apply on_exception_other, Hq.
Qed.

Lemma silent_fallback_witness :
  fst (generate_speech_with_gemini cpython311 (provider_of [text_chunk "note"])
         "Hello" no_calls) = silent_container /\
  fst (generate_speech_with_gemini cpython311 (failing_provider "503 UNAVAILABLE")
         "Hello" no_calls) = silent_container.
Proof.
  split.
  - apply (silent_fallback cpython311 (provider_of [text_chunk "note"]) "Hello" no_calls).
    left. exists None. reflexivity.
  - apply (silent_fallback cpython311 (failing_provider "503 UNAVAILABLE") "Hello" no_calls).
    right. exists (UpstreamError "503 UNAVAILABLE"). split; reflexivity.
Defined.

(** C4.  When requesting or aggregating raises an exception whose text
    contains "429", contains "RESOURCE_EXHAUSTED", or contains "quota" in
    any letter case, generate_speech_with_gemini returns zero bytes as its
    value. *)
Theorem quota_returns_empty (rt : Runtime) (provider : Provider) (text : string)
  (w : World) (e : exn) :
  aggregate (provider text) ([], None) = Raise e ->
  Str.contains "429" (exn_str rt e) = true \/
  Str.contains "RESOURCE_EXHAUSTED" (exn_str rt e) = true \/
  Str.contains "quota" (Str.lower (exn_str rt e)) = true ->
  generate_speech_with_gemini rt provider text w
  = ([], mkWorld (upstream_calls w ++ [text])).
Proof.
  intros H Hq.
  rewrite (generate_speech_raise rt provider text w e); [| apply body_raises, H].
  rewrite on_exception_quota; [reflexivity |].
  unfold quota_signature. destruct Hq as [-> | [-> | ->]];
    rewrite ?orb_true_r; reflexivity.
Qed.

Lemma quota_returns_empty_witness :
  generate_speech_with_gemini cpython311
    (failing_provider "429 Too Many Requests") "Hello" no_calls
  = ([], mkWorld ["Hello"%string]) /\
  generate_speech_with_gemini cpython311
    (failing_provider "Quota exceeded for this model") "Hello" no_calls
  = ([], mkWorld ["Hello"%string]).
Proof.
  split.
  - apply (quota_returns_empty cpython311 (failing_provider "429 Too Many Requests")
             "Hello" no_calls (UpstreamError "429 Too Many Requests")).
    + reflexivity.
    + left. reflexivity.
  - apply (quota_returns_empty cpython311
             (failing_provider "Quota exceeded for this model")
             "Hello" no_calls (UpstreamError "Quota exceeded for this model")).
    + reflexivity.
    + right. right. reflexivity.
Defined.

(** C7, as amended.  When the aggregated payload is not empty and a
    (non-empty) MIME type was captured: if its guessed extension is .wav,
    the pipeline returns the payload as it is; otherwise it parses the MIME
    type and, when the parsed values and the payload length fit the
    header's fixed-width fields, returns the payload wrapped in a WAV
    container. *)
Theorem deliver_by_mime (rt : Runtime) (provider : Provider) (text : string)
  (w : World) (audio : bytes) (m : string) :
  aggregate (provider text) ([], None) = Ok (audio, Some m) ->
  audio <> [] ->
  m <> EmptyString ->
  (guess_extension rt m = Some ".wav"%string ->
   fst (generate_speech_with_gemini rt provider text w) = audio) /\
  (guess_extension rt m <> Some ".wav"%string ->
   exists D, parse_audio_mime_type m = Ok D /\
             (fits_header (len audio) D ->
              is_wav_container audio D
                (fst (generate_speech_with_gemini rt provider text w)))).
Proof.
  intros Hagg Ha Hm. split.
  - intros Hext.
    rewrite (generate_speech_ok rt provider text w audio); [reflexivity |].
    rewrite (body_of_aggregate rt _ _ Hagg).
    apply deliver_raw; [exact Ha |]. right. right. eauto.
  - intros Hext. pose proof (parse_audio_mime_type_spec m) as HD.
    set (D := mkParameters _ _) in HD. exists D. split; [exact HD |].
    intros Hfits.
    rewrite (generate_speech_ok rt provider text w
               (canonical_header (len audio) D ++ audio)).
    + apply canonical_container. exact Hfits.
    + rewrite (body_of_aggregate rt _ _ Hagg).
      rewrite deliver_wrap by assumption.
      unfold convert_to_wav. rewrite HD. cbn [bind].
      apply wav_container_fits. exact Hfits.
Qed.

Lemma fits_ab : fits_header (len (b_ "ab")) pcm16_24k.
Proof.
  unfold fits_header.
  change (len (b_ "ab")) with 2. cbn [pcm16_24k bits_per_sample rate].
  change (2 ^ 32) with 4294967296. change (2 ^ 16) with 65536.
  change (16 / 8) with 2. lia.
Qed.

Lemma deliver_by_mime_witness :
  fst (generate_speech_with_gemini cpython311
         (provider_of [audio_chunk (b_ "ab") (Some "audio/x-wav"%string)])
         "Hello" no_calls) = b_ "ab" /\
  is_wav_container (b_ "ab") pcm16_24k
    (fst (generate_speech_with_gemini cpython311
            (provider_of [audio_chunk (b_ "ab") (Some "audio/L16;rate=24000"%string)])
            "Hello" no_calls)).
Proof.
  split.
  - apply (deliver_by_mime cpython311
             (provider_of [audio_chunk (b_ "ab") (Some "audio/x-wav"%string)])
             "Hello" no_calls (b_ "ab") "audio/x-wav");
      [reflexivity | discriminate | discriminate | reflexivity].
  - destruct (deliver_by_mime cpython311
                (provider_of [audio_chunk (b_ "ab") (Some "audio/L16;rate=24000"%string)])
                "Hello" no_calls (b_ "ab") "audio/L16;rate=24000")
      as [_ Hwrap]; [reflexivity | discriminate | discriminate |].
    destruct Hwrap as (D & HD & Hc); [discriminate |].
    assert (HD' : parse_audio_mime_type "audio/L16;rate=24000" = Ok pcm16_24k)
      by reflexivity.
    rewrite HD' in HD. injection HD as <-.
    apply Hc. exact fits_ab.
Defined.

(** C7 as stated fails: with the MIME type "audio/L16;rate=-1" the rate
    does not fit its field, packing raises, and the caller receives the
    silent container instead of the wrapped payload. *)
Lemma deliver_unwrapped_on_bad_rate :
  guess_extension cpython311 "audio/L16;rate=-1" <> Some ".wav"%string /\
  convert_to_wav (b_ "ab") "audio/L16;rate=-1" = Raise (StructError "I" (-1)) /\
  fst (generate_speech_with_gemini cpython311
         (provider_of [audio_chunk (b_ "ab") (Some "audio/L16;rate=-1"%string)])
         "Hello" no_calls) = silent_container /\
  ~ exists D,
      is_wav_container (b_ "ab") D
        (fst (generate_speech_with_gemini cpython311
                (provider_of [audio_chunk (b_ "ab") (Some "audio/L16;rate=-1"%string)])
                "Hello" no_calls)).
Proof.
  assert (Hc : convert_to_wav (b_ "ab") "audio/L16;rate=-1"
               = Raise (StructError "I" (-1))) by (vm_compute; reflexivity).
  assert (Hr : fst (generate_speech_with_gemini cpython311
                      (provider_of [audio_chunk (b_ "ab")
                                      (Some "audio/L16;rate=-1"%string)])
                      "Hello" no_calls) = silent_container).
  { rewrite (generate_speech_raise cpython311
               (provider_of [audio_chunk (b_ "ab") (Some "audio/L16;rate=-1"%string)])
               "Hello" no_calls (StructError "I" (-1))).
    - apply on_exception_other. reflexivity.
    - unfold provider_of.
      rewrite (body_of_aggregate cpython311
                 (stream_of [audio_chunk (b_ "ab") (Some "audio/L16;rate=-1"%string)])
                 (b_ "ab", Some "audio/L16;rate=-1"%string) eq_refl).
      rewrite deliver_wrap by discriminate. exact Hc. }
  split; [discriminate |]. split; [exact Hc |]. split; [exact Hr |].
  intros (D & HD). rewrite Hr in HD.
  apply is_wav_container_len in HD. rewrite len_silent_container in HD.
  change (len (b_ "ab")) with 2 in HD. discriminate HD.
Qed.

(** C9, as amended.  Leaving aside the executions in which the container
    packing raises an exception whose text has the quota signature,
    generate_speech_with_gemini returns zero bytes only when an exception
    raised while requesting or aggregating the stream has the quota
    signature in its text; when no exception occurs the result is not
    empty, and it is at least 44 bytes long unless the aggregated bytes are
    returned as they are (no MIME type was captured, or its guessed
    extension is .wav), in which case it has their length. *)
Theorem empty_only_on_quota (rt : Runtime) (provider : Provider) (text : string)
  (w : World) :
  ((forall acc e,
       aggregate (provider text) ([], None) = Ok acc ->
       deliver rt acc = Raise e ->
       quota_signature (exn_str rt e) = false) ->
   fst (generate_speech_with_gemini rt provider text w) = [] ->
   exists e, aggregate (provider text) ([], None) = Raise e /\
             quota_signature (exn_str rt e) = true) /\
  (forall b,
      generate_speech_body rt (provider text) = Ok b ->
      fst (generate_speech_with_gemini rt provider text w) = b /\
      b <> [] /\
      (44 <= len b \/
       exists mime, aggregate (provider text) ([], None) = Ok (b, mime) /\
                    returned_raw rt mime)).
Proof.
  assert (Hok : forall b,
      generate_speech_body rt (provider text) = Ok b ->
      fst (generate_speech_with_gemini rt provider text w) = b /\
      b <> [] /\
      (44 <= len b \/
       exists mime, aggregate (provider text) ([], None) = Ok (b, mime) /\
                    returned_raw rt mime)).
  { intros b Hb. split; [rewrite (generate_speech_ok rt _ _ _ _ Hb); reflexivity |].
    apply body_inv in Hb as ([audio mime] & Hagg & Hd).
    apply deliver_inv in Hd as [(-> & ->) | [(Ha & -> & Hraw) | (Ha & m & -> & Hc)]].
    - split; [exact silent_container_nonempty |]. left.
      rewrite len_silent_container. lia.
    - split; [exact Ha |]. right. eauto.
    - apply convert_to_wav_shape in Hc as (h & -> & Hh).
      split.
      + destruct h; [discriminate Hh | discriminate].
      + left. rewrite len_app. unfold len at 1. rewrite Hh.
        pose proof (len_nonneg audio). lia. }
  assert (Hraise : forall e,
      generate_speech_body rt (provider text) = Raise e ->
      fst (generate_speech_with_gemini rt provider text w) = [] ->
      quota_signature (exn_str rt e) = true).
  { intros e Hbody Hempty.
    rewrite (generate_speech_raise rt _ _ _ _ Hbody) in Hempty. cbn [fst] in Hempty.
    destruct (quota_signature (exn_str rt e)) eqn:Hq; [reflexivity |].
    rewrite (on_exception_other rt e Hq) in Hempty.
    destruct (silent_container_nonempty Hempty). }
  split; [| exact Hok].
  intros Hclean Hempty.
  destruct (aggregate (provider text) ([], None)) as [acc | e] eqn:Hagg.
  - pose proof (body_of_aggregate rt _ _ Hagg) as Hbody.
    destruct (deliver rt acc) as [b | e] eqn:Hd.
    + destruct (Hok b Hbody) as (Hfst & Hne & _). congruence.
    + pose proof (Hraise e Hbody Hempty) as Hq.
      rewrite (Hclean acc e eq_refl Hd) in Hq. discriminate Hq.
  - exists e. split; [reflexivity |].
    exact (Hraise e (body_raises rt _ _ Hagg) Hempty).
Qed.

(** C9 as stated fails: one chunk of one byte without a MIME type gives,
    with no exception, a result of one byte. *)
Lemma one_byte_result :
  generate_speech_body cpython311 (stream_of [audio_chunk (b_ "a") None])
  = Ok (b_ "a") /\
  fst (generate_speech_with_gemini cpython311
         (provider_of [audio_chunk (b_ "a") None]) "Hello" no_calls) = b_ "a" /\
  ~ 44 <= len (fst (generate_speech_with_gemini cpython311
                      (provider_of [audio_chunk (b_ "a") None]) "Hello" no_calls)).
Proof.
  assert (Hb : generate_speech_body cpython311 (stream_of [audio_chunk (b_ "a") None])
               = Ok (b_ "a")) by reflexivity.
  assert (Hr : fst (generate_speech_with_gemini cpython311
                      (provider_of [audio_chunk (b_ "a") None]) "Hello" no_calls)
               = b_ "a")
    by (rewrite (generate_speech_ok cpython311
                   (provider_of [audio_chunk (b_ "a") None])
                   "Hello" no_calls (b_ "a") Hb);
        reflexivity).
  split; [exact Hb |]. split; [exact Hr |].
  rewrite Hr. change (len (b_ "a")) with 1. lia.
Qed.

(** The quota test reads the text of any exception.  On CPython 3.11 the
    text of a [struct.error] for a 4-byte field names the bound 4294967295,
    which contains "429": a rate of 2^32 sends the pipeline through the
    quota branch and the result is empty. *)
Lemma quota_branch_on_struct_error :
  convert_to_wav (b_ "ab") "audio/L16;rate=4294967296"
  = Raise (StructError "I" 4294967296) /\
  quota_signature (exn_str cpython311 (StructError "I" 4294967296)) = true /\
  fst (generate_speech_with_gemini cpython311
         (provider_of [audio_chunk (b_ "ab") (Some "audio/L16;rate=4294967296"%string)])
         "Hello" no_calls) = [].
Proof.
  assert (Hc : convert_to_wav (b_ "ab") "audio/L16;rate=4294967296"
               = Raise (StructError "I" 4294967296)) by (vm_compute; reflexivity).
  split; [exact Hc |]. split; [reflexivity |].
  rewrite (generate_speech_raise cpython311
             (provider_of [audio_chunk (b_ "ab")
                             (Some "audio/L16;rate=4294967296"%string)])
             "Hello" no_calls (StructError "I" 4294967296)).
  - apply on_exception_quota. reflexivity.
  - unfold provider_of.
    rewrite (body_of_aggregate cpython311
               (stream_of [audio_chunk (b_ "ab")
                             (Some "audio/L16;rate=4294967296"%string)])
               (b_ "ab", Some "audio/L16;rate=4294967296"%string) eq_refl).
    rewrite deliver_wrap by discriminate. exact Hc.
Qed.

(** C10.  When the aggregated payload is not empty and no chunk carried a
    MIME type, generate_speech_with_gemini returns the aggregated bytes as
    they are, without a header, and speak_text sends them on labelled
    audio/wav. *)
Theorem raw_without_mime (rt : Runtime) (provider : Provider) (text : string)
  (w : World) (audio : bytes) :
  aggregate (provider text) ([], None) = Ok (audio, None) ->
  audio <> [] ->
  generate_speech_with_gemini rt provider text w
  = (audio, mkWorld (upstream_calls w ++ [text])) /\
  (Str.strip text <> EmptyString ->
   speak_text rt provider text w
   = (StreamingResponse audio "audio/wav", mkWorld (upstream_calls w ++ [text]))).
Proof.
  intros Hagg Ha.
  assert (Hgen : generate_speech_with_gemini rt provider text w
                 = (audio, mkWorld (upstream_calls w ++ [text]))).
  { apply generate_speech_ok. rewrite (body_of_aggregate rt _ _ Hagg).
    apply deliver_raw; [exact Ha | left; reflexivity]. }
  split; [exact Hgen |]. intros Hs.
  unfold speak_text, speak_text_body.
  destruct text as [| c t]; [destruct (Hs eq_refl) |].
  destruct (Str.strip (String c t)) as [| c' t']; [destruct (Hs eq_refl) |].
  rewrite Hgen. destruct audio as [| a l]; [congruence | reflexivity].
Qed.

Lemma raw_without_mime_witness :
  generate_speech_with_gemini cpython311
    (provider_of [audio_chunk (b_ "ab") None]) "Hello" no_calls
  = (b_ "ab", mkWorld ["Hello"%string]) /\
  (Str.strip "Hello" <> EmptyString ->
   speak_text cpython311 (provider_of [audio_chunk (b_ "ab") None]) "Hello" no_calls
   = (StreamingResponse (b_ "ab") "audio/wav", mkWorld ["Hello"%string])).
Proof.
  apply (raw_without_mime cpython311 (provider_of [audio_chunk (b_ "ab") None])
           "Hello" no_calls (b_ "ab")).
  - reflexivity.
  - discriminate.
Defined.

(* ===================================================================== *)
(** ** speak_text *)
(* ===================================================================== *)

(** C6.  For every text that is empty or whitespace only, speak_text
    answers HTTP 400 and the provider has not been called: the list of
    calls is what it was, whatever the provider. *)
Theorem blank_text_rejected (rt : Runtime) (provider : Provider) (text : string)
  (w : World) :
  all_space text = true ->
  speak_text rt provider text w
  = (HTTPException 400
       "ValueError in speak_text: Text cannot be empty or whitespace only", w).
Proof.
  intros H. unfold speak_text, speak_text_body.
  destruct text as [| c t]; [reflexivity |].
  rewrite (strip_all_space (String c t) H). reflexivity.
Qed.

Lemma blank_text_rejected_witness :
  all_space "" = true /\
  speak_text cpython311 (provider_of [audio_chunk (b_ "ab") None]) "" no_calls
  = (HTTPException 400
       "ValueError in speak_text: Text cannot be empty or whitespace only", no_calls) /\
  speak_text cpython311 (provider_of [audio_chunk (b_ "ab") None]) "  " no_calls
  = (HTTPException 400
       "ValueError in speak_text: Text cannot be empty or whitespace only", no_calls).
Proof.
  split; [reflexivity |]. split.
  - exact (blank_text_rejected cpython311 (provider_of [audio_chunk (b_ "ab") None])
             "" no_calls eq_refl).
  - exact (blank_text_rejected cpython311 (provider_of [audio_chunk (b_ "ab") None])
             "  " no_calls eq_refl).
Defined.

(* ===================================================================== *)
(** ** The general statements at concrete inputs *)
(* ===================================================================== *)

Lemma parse_audio_mime_type_permissive_witness :
  (exists d, parse_audio_mime_type "audio/L16;codec=pcm;rate=abc" = Ok d) /\
  digits 24 <= Str.int_max_str_digits /\
  digits 48000 <= Str.int_max_str_digits /\
  parse_audio_mime_type ("audio/L" ++ decimal 24 ++ ";rate=" ++ decimal 48000)
  = Ok (mkParameters 24 48000) /\
  bits_per_sample default_parameters = 16 /\
  rate default_parameters = 24000.
Proof.
  destruct parse_audio_mime_type_permissive as (Htotal & Hexact & _ & Hdefault & _).
  split; [apply Htotal |].
  split; [discriminate |]. split; [discriminate |].
  split; [apply Hexact; discriminate |].
  destruct (Hdefault "audio/ogg"%string default_parameters eq_refl) as [Hb Hr].
  split; [apply Hb | apply Hr]; repeat constructor.
Defined.

Lemma empty_only_on_quota_witness :
  (exists e,
      aggregate (failing_provider "429 Too Many Requests" "Hello"%string) ([], None)
      = Raise e /\
      quota_signature (exn_str cpython311 e) = true) /\
  fst (generate_speech_with_gemini cpython311
         (provider_of [audio_chunk (b_ "ab") None]) "Hello" no_calls) = b_ "ab" /\
  b_ "ab" <> [].
Proof.
  split.
  - apply (proj1 (empty_only_on_quota cpython311
                    (failing_provider "429 Too Many Requests") "Hello" no_calls)).
    + intros acc e Hagg. discriminate Hagg.
    + reflexivity.
  - destruct (proj2 (empty_only_on_quota cpython311
                       (provider_of [audio_chunk (b_ "ab") None]) "Hello" no_calls)
                (b_ "ab") eq_refl) as (Hfst & Hne & _).
    split; [exact Hfst | exact Hne].
Defined.

(* ===================================================================== *)
(** ** More on the container synthesizer *)
(* ===================================================================== *)

Section PackInversion.

Lemma uint_inv (code : ascii) (size : nat) (v : Z) (b : bytes) :
  Struct.uint code size v = Ok b -> 0 <= v < 2 ^ (8 * Z.of_nat size).
Proof.
  unfold Struct.uint.
  destruct (0 <=? v) eqn:E0; destruct (v <? 2 ^ (8 * Z.of_nat size)) eqn:E1;
    cbn [andb]; try discriminate.
  intros _. apply Z.leb_le in E0. apply Z.ltb_lt in E1. split; assumption.
Qed.

Lemma pack_cons_inv (f : Struct.field) (fs : list Struct.field) (b : bytes) :
  Struct.pack (f :: fs) = Ok b ->
  exists bf bs, Struct.pack_field f = Ok bf /\ Struct.pack fs = Ok bs /\ b = bf ++ bs.
Proof.
  cbn [Struct.pack].
  destruct (Struct.pack_field f) as [bf |]; cbn [bind]; [| discriminate].
  destruct (Struct.pack fs) as [bs |]; cbn [bind]; [| discriminate].
  intros H. inversion H. eauto.
Qed.

Lemma wav_container_ok_fits (P : bytes) (D : AudioParameters) (w : bytes) :
  wav_container P D = Ok w -> fits_header (len P) D.
Proof.
  unfold wav_container.
  match goal with
  | |- context [Struct.pack ?fs] => destruct (Struct.pack fs) as [h |] eqn:E
  end; cbn [bind]; [intros _ | discriminate].
  apply pack_cons_inv in E as (? & ? & _ & E & _).
  apply pack_cons_inv in E as (? & ? & Hchunk & E & _).
  apply pack_cons_inv in E as (? & ? & _ & E & _).
  apply pack_cons_inv in E as (? & ? & _ & E & _).
  apply pack_cons_inv in E as (? & ? & _ & E & _).
  apply pack_cons_inv in E as (? & ? & _ & E & _).
  apply pack_cons_inv in E as (? & ? & _ & E & _).
  apply pack_cons_inv in E as (? & ? & Hrate & E & _).
  apply pack_cons_inv in E as (? & ? & Hbyte & E & _).
  apply pack_cons_inv in E as (? & ? & _ & E & _).
  apply pack_cons_inv in E as (? & ? & Hbits & E & _).
  cbn [Struct.pack_field] in Hchunk, Hrate, Hbyte, Hbits.
  apply uint_inv in Hchunk, Hrate, Hbyte, Hbits.
  rewrite Z.mul_1_l in Hbyte.
  change (2 ^ (8 * Z.of_nat 4)) with (2 ^ 32) in *.
  change (2 ^ (8 * Z.of_nat 2)) with (2 ^ 16) in *.
  unfold fits_header. tauto.
Qed.

Lemma Ok_inj {A} (a b : A) : Ok a = Ok b -> a = b.
Proof. congruence. Qed.

Lemma app_eq_same_length {A} (a a' b b' : list A) :
  List.length a = List.length a' -> a ++ b = a' ++ b' -> a = a' /\ b = b'.
Proof.
  revert a'. induction a as [| x a IH]; intros [| x' a'] Hl H;
    cbn in Hl; try discriminate.
  - split; [reflexivity | exact H].
  - cbn [app] in H. injection H as -> H. injection Hl as Hl.
    destruct (IH a' Hl H) as [-> ->]. split; reflexivity.
Qed.

Lemma container_determines (P P' : bytes) (D D' : AudioParameters) (w : bytes) :
  is_wav_container P D w -> is_wav_container P' D' w ->
  P = P' /\ bits_per_sample D = bits_per_sample D' /\ rate D = rate D'.
Proof.
  intros (h & Hw & Hh & _ & _ & _ & _ & _ & _ & _ & Hr & _ & _ & Hb & _)
         (h' & Hw' & Hh' & _ & _ & _ & _ & _ & _ & _ & Hr' & _ & _ & Hb' & _).
  rewrite Hw in Hw'.
  apply app_eq_same_length in Hw' as [<- <-]; [| congruence].
  split; [reflexivity |]. split; congruence.
Qed.

End PackInversion.

(** X1.  The packing step of convert_to_wav returns a container exactly
    when every value fits its header field; outside that range it raises. *)
Theorem wav_container_iff_fits (P : bytes) (D : AudioParameters) :
  (exists w, wav_container P D = Ok w) <-> fits_header (len P) D.
Proof.
  split.
  - intros [w H]. exact (wav_container_ok_fits P D w H).
  - intros H. eexists. apply wav_container_fits. exact H.
Qed.

(** X2.  Whatever the MIME string, a result of convert_to_wav is a
    well-formed container for the descriptor parsed from that string: 44
    header bytes, then the audio data unchanged. *)
Theorem convert_to_wav_returns_container (audio : bytes) (m : string) (w : bytes) :
  convert_to_wav audio m = Ok w ->
  exists D, parse_audio_mime_type m = Ok D /\
            is_wav_container audio D w /\
            skipn 44 w = audio /\
            len w = 44 + len audio.
Proof.
  unfold convert_to_wav. pose proof (parse_audio_mime_type_spec m) as HD.
  set (D := mkParameters _ _) in HD. rewrite HD. cbn [bind]. intros Hw.
  pose proof (wav_container_ok_fits audio D w Hw) as Hfits.
  rewrite (wav_container_fits audio D Hfits) in Hw.
  apply Ok_inj in Hw. rewrite <- Hw.
  exists D. split; [reflexivity |].
  split; [apply canonical_container; exact Hfits |].
  split; [reflexivity |].
  rewrite len_app. reflexivity.
Qed.

Lemma convert_to_wav_returns_container_witness :
  exists D, parse_audio_mime_type "audio/L24;rate=48000" = Ok D /\
            is_wav_container (b_ "abcdef") D
              (canonical_header 6 (mkParameters 24 48000) ++ b_ "abcdef") /\
            skipn 44 (canonical_header 6 (mkParameters 24 48000) ++ b_ "abcdef")
            = b_ "abcdef" /\
            len (canonical_header 6 (mkParameters 24 48000) ++ b_ "abcdef")
            = 44 + len (b_ "abcdef").
Proof.
  apply (convert_to_wav_returns_container (b_ "abcdef") "audio/L24;rate=48000").
  vm_compute. reflexivity.
Defined.

(** X3.  When no segment of the MIME string gives a value to either
    field and the data is shorter than 2^32 - 36 bytes, convert_to_wav
    wraps the data as 16-bit mono PCM at 24000 Hz. *)
Theorem convert_to_wav_defaults (audio : bytes) (m : string) :
  unset bits_of_param m -> unset rate_of_param m ->
  36 + len audio < 2 ^ 32 ->
  convert_to_wav audio m = Ok (canonical_header (len audio) pcm16_24k ++ audio).
Proof.
  intros Hb Hr Hn. unfold convert_to_wav.
  rewrite parse_audio_mime_type_spec.
  rewrite (last_set_unset bits_of_param _ 16 Hb).
  rewrite (last_set_unset rate_of_param _ 24000 Hr).
  cbn [bind]. apply (wav_container_fits audio pcm16_24k).
  unfold fits_header. cbn [pcm16_24k bits_per_sample rate].
  change (2 ^ 32) with 4294967296 in *. change (2 ^ 16) with 65536.
  change (16 / 8) with 2. lia.
Qed.

Lemma convert_to_wav_defaults_witness :
  convert_to_wav (b_ "abcd") "audio/pcm; codec=raw"
  = Ok (canonical_header (len (b_ "abcd")) pcm16_24k ++ b_ "abcd").
Proof.
  apply (convert_to_wav_defaults (b_ "abcd") "audio/pcm; codec=raw").
  - repeat constructor.
  - repeat constructor.
  - reflexivity.
Defined.

(** X4.  A container determines what it was made from: if the packing
    step returns the same bytes for two payloads and descriptors, the
    payloads are equal and so are the bits per sample and the rates. *)
Theorem wav_container_injective (P P' : bytes) (D D' : AudioParameters) (w : bytes) :
  wav_container P D = Ok w -> wav_container P' D' = Ok w ->
  P = P' /\ bits_per_sample D = bits_per_sample D' /\ rate D = rate D'.
Proof.
  intros H H'.
  pose proof (wav_container_ok_fits _ _ _ H) as F.
  pose proof (wav_container_ok_fits _ _ _ H') as F'.
  rewrite (wav_container_fits _ _ F) in H. apply Ok_inj in H.
  rewrite (wav_container_fits _ _ F') in H'. apply Ok_inj in H'.
  apply (container_determines P P' D D' w).
  - rewrite <- H. apply canonical_container. exact F.
  - rewrite <- H'. apply canonical_container. exact F'.
Qed.

Lemma wav_container_injective_witness :
  b_ "abcd" = b_ "abcd" /\
  bits_per_sample pcm16_24k = bits_per_sample (mkParameters 16 24000) /\
  rate pcm16_24k = rate (mkParameters 16 24000).
Proof.
  apply (wav_container_injective (b_ "abcd") (b_ "abcd") pcm16_24k
           (mkParameters 16 24000)
           (canonical_header 4 pcm16_24k ++ b_ "abcd"));
    vm_compute; reflexivity.
Defined.

(* ===================================================================== *)
(** ** More on the MIME descriptor parser *)
(* ===================================================================== *)

Section SegmentFacts.

Lemma split_nonempty (sep : ascii) (s : string) : Str.split sep s <> [].
Proof.
  induction s as [| c r IH]; cbn [Str.split]; [discriminate |].
  destruct (Ascii.eqb c sep); [discriminate |].
  destruct (Str.split sep r); [congruence | discriminate].
Qed.

Lemma split_app_sep (sep : ascii) (s t : string) :
  Str.split sep (s ++ String sep t) = Str.split sep s ++ Str.split sep t.
Proof.
  induction s as [| c r IH]; cbn [append Str.split].
  - rewrite Ascii.eqb_refl. reflexivity.
  - destruct (Ascii.eqb c sep); rewrite IH; [reflexivity |].
    pose proof (split_nonempty sep r) as Hne.
    destruct (Str.split sep r); [congruence | reflexivity].
Qed.

Lemma segments_app (s t : string) :
  segments (s ++ ";" ++ t) = segments s ++ segments t.
Proof. unfold segments. apply split_app_sep. Qed.

Lemma parse_params_app (a b : list string) :
  forall st,
    parse_params (a ++ b) st
    = (st' <- parse_params a st ;; parse_params b st').
Proof.
  induction a as [| p a IH]; intros st; cbn [app parse_params]; [reflexivity |].
  rewrite parse_param_spec. cbn [bind]. apply IH.
Qed.

Lemma last_set_app (f : string -> option Z) (a b : list string) (d : Z) :
  last_set (map f (a ++ b)) d = last_set (map f b) (last_set (map f a) d).
Proof. unfold last_set. rewrite map_app, fold_left_app. reflexivity. Qed.

Lemma ignored_unset (ps : list string) :
  forallb ignored_segment ps = true ->
  Forall (fun p => bits_of_param p = None) ps /\
  Forall (fun p => rate_of_param p = None) ps.
Proof.
  induction ps as [| p ps IH]; cbn [forallb]; [split; constructor |].
  intros H. apply andb_prop in H as [Hp Hps]. destruct (IH Hps) as [Hb Hr].
  unfold ignored_segment in Hp.
  destruct (bits_of_param p) eqn:Eb; [discriminate |].
  destruct (rate_of_param p) eqn:Er; [discriminate |].
  split; constructor; assumption.
Qed.

Lemma lstrip_app_space (a s : string) :
  all_space a = true -> Str.lstrip (a ++ s) = Str.lstrip s.
Proof.
  induction a as [| c r IH]; cbn [all_space append Str.lstrip]; [reflexivity |].
  intros H. apply andb_prop in H as [Hc Hr]. rewrite Hc. exact (IH Hr).
Qed.

Lemma rstrip_all_space (b : string) : all_space b = true -> Str.rstrip b = EmptyString.
Proof.
  induction b as [| c r IH]; cbn [all_space Str.rstrip]; [reflexivity |].
  intros H. apply andb_prop in H as [Hc Hr]. rewrite (IH Hr), Hc. reflexivity.
Qed.

Lemma rstrip_app_space (s b : string) :
  all_space b = true -> Str.rstrip (s ++ b) = Str.rstrip s.
Proof.
  intros Hb. induction s as [| c r IH]; cbn [append Str.rstrip].
  - apply rstrip_all_space. exact Hb.
  - rewrite IH. reflexivity.
Qed.

Lemma strip_padded (a p b : string) :
  all_space a = true -> all_space b = true ->
  Str.strip (a ++ p ++ b) = Str.strip p.
Proof.
  intros Ha Hb. unfold Str.strip. rewrite (lstrip_app_space a _ Ha).
  induction p as [| c r IH]; cbn [append Str.lstrip].
  - rewrite (lstrip_all_space b Hb). reflexivity.
  - destruct (Str.isspace c); [exact IH |].
    apply (rstrip_app_space (String c r) b Hb).
Qed.

End SegmentFacts.


(** X6.  Segments that give neither field a value are ignored wherever
    they stand: put after or before a MIME string, they leave the parsed
    descriptor as it is. *)
Theorem parse_ignores_other_segments (s t : string) :
  forallb ignored_segment (segments t) = true ->
  parse_audio_mime_type (s ++ ";" ++ t) = parse_audio_mime_type s /\
  parse_audio_mime_type (t ++ ";" ++ s) = parse_audio_mime_type s.
Proof.
  intros H. destruct (ignored_unset _ H) as [Hb Hr].
  rewrite !parse_audio_mime_type_spec, !segments_app, !last_set_app.
  rewrite !(last_set_unset bits_of_param (segments t)) by exact Hb.
  rewrite !(last_set_unset rate_of_param (segments t)) by exact Hr.
  split; reflexivity.
Qed.

Lemma parse_ignores_other_segments_witness :
  parse_audio_mime_type ("audio/L24;rate=48000" ++ ";" ++ "codec=pcm; channels=1")
  = parse_audio_mime_type "audio/L24;rate=48000" /\
  parse_audio_mime_type ("codec=pcm; channels=1" ++ ";" ++ "audio/L24;rate=48000")
  = parse_audio_mime_type "audio/L24;rate=48000".
Proof.
  apply (parse_ignores_other_segments "audio/L24;rate=48000" "codec=pcm; channels=1").
  reflexivity.
Defined.

(** X7.  Whitespace around a segment does not count: the loop body does
    the same on a segment and on that segment padded with whitespace on
    either side. *)
Theorem parse_param_padded (st : AudioParameters) (a p b : string) :
  all_space a = true -> all_space b = true ->
  parse_param st (a ++ p ++ b) = parse_param st p.
Proof.
  intros Ha Hb. unfold parse_param. rewrite (strip_padded a p b Ha Hb).
  reflexivity.
Qed.

Lemma parse_param_padded_witness :
  parse_param default_parameters ("  " ++ "Rate=48000" ++ " ")
  = parse_param default_parameters "Rate=48000".
Proof.
  apply (parse_param_padded default_parameters "  " "Rate=48000" " "); reflexivity.
Defined.

Section RateKey.

Ltac ascii_cases c :=
  destruct c as [[] [] [] [] [] [] [] []]; vm_compute; intros H;
  try discriminate H; auto.

Lemma lower_char_r (c : ascii) :
  Str.lower_char c = "r"%char -> c = "r"%char \/ c = "R"%char.
Proof. ascii_cases c. Qed.

Lemma lower_char_a (c : ascii) :
  Str.lower_char c = "a"%char -> c = "a"%char \/ c = "A"%char.
Proof. ascii_cases c. Qed.

Lemma lower_char_t (c : ascii) :
  Str.lower_char c = "t"%char -> c = "t"%char \/ c = "T"%char.
Proof. ascii_cases c. Qed.

Lemma lower_char_e (c : ascii) :
  Str.lower_char c = "e"%char -> c = "e"%char \/ c = "E"%char.
Proof. ascii_cases c. Qed.

Lemma lower_char_eq (c : ascii) :
  Str.lower_char c = "="%char -> c = "="%char.
Proof. ascii_cases c. Qed.

Lemma lower_is_rate (k : string) :
  Str.lower k = "rate="%string ->
  exists c1 c2 c3 c4,
    k = String c1 (String c2 (String c3 (String c4 "="))) /\
    (c1 = "r" \/ c1 = "R")%char /\ (c2 = "a" \/ c2 = "A")%char /\
    (c3 = "t" \/ c3 = "T")%char /\ (c4 = "e" \/ c4 = "E")%char.
Proof.
  destruct k as [| c1 [| c2 [| c3 [| c4 [| c5 [| c6 k']]]]]];
    cbn [Str.lower]; intros H; try discriminate H.
  injection H as H1 H2 H3 H4 H5.
  apply lower_char_eq in H5. subst c5.
  exists c1, c2, c3, c4. split; [reflexivity |].
  repeat split;
    auto using lower_char_r, lower_char_a, lower_char_t, lower_char_e.
Qed.

End RateKey.

(** X8.  The rate key is read in any letter case: for every spelling [k]
    of "rate=" in upper and lower case letters and every positive [r] whose
    numeral has at most 4300 digits (the limit of [int]), the one-segment
    MIME string [k<r>] gives rate [r] and the default 16 bits. *)
Theorem rate_key_any_case (k : string) (r : positive) :
  Str.lower k = "rate="%string ->
  digits r <= Str.int_max_str_digits ->
  parse_audio_mime_type (k ++ decimal r) = Ok (mkParameters 16 (Z.pos r)).
Proof.
  intros Hk Hr. apply lower_is_rate in Hk as (c1 & c2 & c3 & c4 & -> & H1 & H2 & H3 & H4).
  pose proof (all_digits_of_uint (Pos.to_uint r)) as Hd. fold (decimal r) in Hd.
  pose proof (decimal_nonempty r) as Hn.
  pose proof (int_decimal r Hr) as Hi.
  rewrite parse_audio_mime_type_spec. unfold segments.
  destruct H1 as [-> | ->], H2 as [-> | ->], H3 as [-> | ->], H4 as [-> | ->];
    (rewrite split_no_sep
       by (rewrite occurs_app, (all_digits_occurs ";" (decimal r)) by (assumption || reflexivity);
           reflexivity);
     cbn [map]; unfold last_set; cbn [fold_left];
     unfold bits_of_param, rate_of_param, Str.strip;
     match goal with
     | |- context [Str.lstrip ?s] => change (Str.lstrip s) with s
     end;
     rewrite rstrip_app by (assumption || (apply rstrip_all_digits; assumption));
     cbn [append Str.lower Str.startswith Str.split1 getitem nth_error bind];
     repeat match goal with
            | |- context [Str.lower_char ?c] =>
                let v := eval vm_compute in (Str.lower_char c) in
                change (Str.lower_char c) with v
            end;
     cbn [Ascii.eqb Bool.eqb andb Str.startswith Str.split1 getitem nth_error bind];
     rewrite Hi; reflexivity).
Qed.

Lemma rate_key_any_case_witness :
  parse_audio_mime_type ("RaTe=" ++ decimal 48000) = Ok (mkParameters 16 48000).
Proof.
  apply (rate_key_any_case "RaTe=" 48000); [reflexivity | discriminate].
Defined.

(* ===================================================================== *)
(** ** More on the aggregation loop and the pipeline *)
(* ===================================================================== *)

Section StreamFacts.

Lemma aggregate_then (chunks : list Chunk) (rest : Stream) :
  forall acc,
    aggregate (stream_then chunks rest) acc
    = (acc' <- aggregate (stream_of chunks) acc ;; aggregate rest acc').
Proof.
  induction chunks as [| c cs IH]; intros acc;
    cbn [stream_then stream_of aggregate bind]; [reflexivity |].
  destruct (on_chunk acc c) as [acc' |]; cbn [bind]; [apply IH | reflexivity].
Qed.

Lemma stream_of_app (a b : list Chunk) :
  stream_of (a ++ b) = stream_then a (stream_of b).
Proof.
  induction a as [| c a IH]; cbn [app stream_of stream_then]; [reflexivity |].
  rewrite IH. reflexivity.
Qed.

Lemma on_chunk_ill_shaped (acc : Acc) (c : Chunk) :
  well_shaped c = false ->
  on_chunk acc c = Raise (IndexError "list index out of range").
Proof.
  destruct acc as [buf mime]. destruct c as [cands].
  destruct cands as [[| [ct] cs] |]; [reflexivity | | discriminate].
  destruct ct as [[ps] |]; [| discriminate].
  destruct ps as [[| p ps] |]; [reflexivity | discriminate | discriminate].
Qed.

Lemma on_chunk_first_only (acc : Acc) (c : Chunk) :
  on_chunk acc (first_only c) = on_chunk acc c.
Proof.
  destruct acc as [buf mime]. destruct c as [cands].
  destruct cands as [[| [ct] cs] |]; try reflexivity.
  destruct ct as [[ps] |]; try reflexivity.
  destruct ps as [[| p ps] |]; reflexivity.
Qed.

Lemma aggregate_first_only (chunks : list Chunk) :
  forall acc,
    aggregate (stream_of (map first_only chunks)) acc
    = aggregate (stream_of chunks) acc.
Proof.
  induction chunks as [| c cs IH]; intros acc; cbn [map stream_of aggregate];
    [reflexivity |].
  rewrite on_chunk_first_only.
  destruct (on_chunk acc c) as [acc' |]; cbn [bind]; [apply IH | reflexivity].
Qed.

Lemma rstrip_empty (s : string) : Str.rstrip s = EmptyString -> all_space s = true.
Proof.
  induction s as [| c r IH]; cbn [Str.rstrip all_space]; [reflexivity |].
  destruct (Str.rstrip r); [| discriminate].
  destruct (Str.isspace c); [| discriminate].
  intros _. exact (IH eq_refl).
Qed.

Lemma all_space_lstrip (s : string) :
  all_space (Str.lstrip s) = true -> all_space s = true.
Proof.
  induction s as [| c r IH]; cbn [Str.lstrip all_space]; [reflexivity |].
  destruct (Str.isspace c) eqn:E; [exact IH |].
  cbn [all_space]. rewrite E. discriminate.
Qed.

Lemma strip_empty_all_space (s : string) :
  Str.strip s = EmptyString -> all_space s = true.
Proof. intros H. apply all_space_lstrip, rstrip_empty, H. Qed.

Lemma all_space_strip (s : string) :
  all_space s = false -> Str.strip s <> EmptyString.
Proof.
  intros H Hs. apply strip_empty_all_space in Hs. congruence.
Qed.

(** What speak_text does on a blank text. *)
Lemma blank_text_rejected_general (rt : Runtime) (provider : Provider)
  (text : string) (w : World) :
  all_space text = true ->
  speak_text rt provider text w
  = (HTTPException 400
       "ValueError in speak_text: Text cannot be empty or whitespace only", w).
Proof.
  intros H. unfold speak_text, speak_text_body.
  destruct text as [| c t]; [reflexivity |].
  rewrite (strip_all_space (String c t) H). reflexivity.
Qed.

(** What speak_text does on a text that is not blank. *)
Lemma speak_text_not_blank (rt : Runtime) (provider : Provider) (text : string)
  (w : World) :
  Str.strip text <> EmptyString ->
  speak_text rt provider text w
  = (match fst (generate_speech_with_gemini rt provider text w) with
     | [] => HTTPException 400
               "ValueError in speak_text: FATAL: Charon voice generation returned empty audio"
     | b :: l => StreamingResponse (b :: l) "audio/wav"
     end,
     mkWorld (upstream_calls w ++ [text])).
Proof.
  intros Hs. unfold speak_text, speak_text_body.
  destruct text as [| c t]; [destruct (Hs eq_refl) |].
  destruct (Str.strip (String c t)) as [| c' t']; [destruct (Hs eq_refl) |].
  unfold generate_speech_with_gemini, call_upstream. cbn [fst].
  destruct (match generate_speech_body rt (provider (String c t)) with
            | Ok b => b
            | Raise e => on_exception rt e
            end); reflexivity.
Qed.

End StreamFacts.

(** X10.  Audio received before the stream fails is thrown away: when the
    provider raises after any number of chunks, the result is what the
    handler makes of the exception alone, empty on a quota signature and
    the silent container otherwise. *)
Theorem partial_audio_discarded (rt : Runtime) (chunks : list Chunk) (e : exn)
  (text : string) (w : World) :
  forallb well_shaped chunks = true ->
  fst (generate_speech_with_gemini rt (fun _ => stream_then chunks (SRaise e)) text w)
  = if quota_signature (exn_str rt e) then [] else silent_container.
Proof.
  intros H.
  rewrite (generate_speech_raise rt (fun _ => stream_then chunks (SRaise e)) text w e).
  - cbn [fst]. destruct (quota_signature (exn_str rt e)) eqn:Hq.
    + apply on_exception_quota, Hq.
    + apply on_exception_other, Hq.
  - apply body_raises. rewrite aggregate_then.
    rewrite (aggregate_well_shaped chunks H). reflexivity.
Qed.

Lemma partial_audio_discarded_witness :
  fst (generate_speech_with_gemini cpython311
         (fun _ => stream_then
                     [audio_chunk (b_ "ab") (Some "audio/L16;rate=24000"%string)]
                     (SRaise (UpstreamError "connection reset")))
         "Hello" no_calls)
  = silent_container.
Proof.
  exact (partial_audio_discarded cpython311
           [audio_chunk (b_ "ab") (Some "audio/L16;rate=24000"%string)]
           (UpstreamError "connection reset") "Hello" no_calls eq_refl).
Defined.

Lemma first_ill_shaped (chunks : list Chunk) :
  forallb well_shaped chunks = false ->
  exists pre chunk post,
    chunks = pre ++ chunk :: post /\
    forallb well_shaped pre = true /\ well_shaped chunk = false.
Proof.
  induction chunks as [| c cs IH]; cbn [forallb]; [discriminate |].
  destruct (well_shaped c) eqn:Hc; cbn [andb].
  - intros H. destruct (IH H) as (pre & chunk & post & -> & Hpre & Hchunk).
    exists (c :: pre), chunk, post. cbn [forallb app]. rewrite Hc, Hpre. auto.
  - intros _. exists [], c, cs. auto.
Qed.

(** X11.  One chunk whose [candidates] list or whose first candidate's
    [parts] list is empty spoils the whole stream: whatever audio the
    other chunks carry, before or after it, the result is the silent
    container. *)
Theorem empty_list_chunk_gives_silence (rt : Runtime) (chunks : list Chunk)
  (text : string) (w : World) :
  forallb well_shaped chunks = false ->
  fst (generate_speech_with_gemini rt (provider_of chunks) text w)
  = silent_container.
Proof.
  intros H. destruct (first_ill_shaped chunks H) as (pre & c & post & -> & Hpre & Hc).
  rewrite (generate_speech_raise rt (provider_of (pre ++ c :: post)) text w
             (IndexError "list index out of range")).
  - apply on_exception_other. reflexivity.
  - apply body_raises. unfold provider_of.
    rewrite stream_of_app, aggregate_then, (aggregate_well_shaped pre Hpre).
    cbn [bind stream_of aggregate]. rewrite (on_chunk_ill_shaped _ _ Hc).
    reflexivity.
Qed.

Lemma empty_list_chunk_gives_silence_witness :
  fst (generate_speech_with_gemini cpython311
         (provider_of [audio_chunk (b_ "ab") (Some "audio/L16;rate=24000"%string);
                       mkChunk (Some []);
                       audio_chunk (b_ "cd") (Some "audio/L16;rate=24000"%string)])
         "Hello" no_calls)
  = silent_container.
Proof.
  exact (empty_list_chunk_gives_silence cpython311
           [audio_chunk (b_ "ab") (Some "audio/L16;rate=24000"%string);
            mkChunk (Some []);
            audio_chunk (b_ "cd") (Some "audio/L16;rate=24000"%string)]
           "Hello" no_calls eq_refl).
Defined.

(** X12.  Only the first part of the first candidate of a chunk is ever
    read: cutting every chunk down to it changes nothing in the result,
    so audio carried by any other part or candidate is lost. *)
Theorem only_first_part_is_read (rt : Runtime) (chunks : list Chunk)
  (text : string) (w : World) :
  generate_speech_with_gemini rt (provider_of (map first_only chunks)) text w
  = generate_speech_with_gemini rt (provider_of chunks) text w.
Proof.
  unfold generate_speech_with_gemini, call_upstream, provider_of,
    generate_speech_body.
  rewrite aggregate_first_only. reflexivity.
Qed.

(** X13.  End to end: for chunks without empty lists whose payloads are
    not all empty, whose first MIME type [m] is not empty and has no .wav
    extension, and whose parsed values fit the header, the result is the
    canonical header for the descriptor parsed from [m] followed by the
    payloads in arrival order, and the provider was called once with the
    text. *)
Theorem stream_to_container (rt : Runtime) (chunks : list Chunk) (m : string)
  (D : AudioParameters) (text : string) (w : World) :
  forallb well_shaped chunks = true ->
  payload_bytes chunks <> [] ->
  first_mime (payloads chunks) = Some m ->
  m <> EmptyString ->
  guess_extension rt m <> Some ".wav"%string ->
  parse_audio_mime_type m = Ok D ->
  fits_header (len (payload_bytes chunks)) D ->
  generate_speech_with_gemini rt (provider_of chunks) text w
  = (canonical_header (len (payload_bytes chunks)) D ++ payload_bytes chunks,
     mkWorld (upstream_calls w ++ [text])).
Proof.
  intros Hws Hne Hm Hm0 Hext HD Hfits.
  apply generate_speech_ok. unfold provider_of.
  rewrite (body_of_aggregate rt _ (payload_bytes chunks, Some m)).
  - rewrite deliver_wrap by assumption.
    unfold convert_to_wav. rewrite HD. cbn [bind].
    apply wav_container_fits. exact Hfits.
  - rewrite (aggregate_well_shaped chunks Hws). cbn [keep_first app].
    rewrite Hm. reflexivity.
Qed.

Lemma stream_to_container_witness :
  generate_speech_with_gemini cpython311
    (provider_of [audio_chunk (b_ "audio") (Some "audio/L16;rate=24000"%string);
                  text_chunk "note";
                  audio_chunk (b_ "more") (Some "audio/L16;rate=24000"%string)])
    "Hello" no_calls
  = (canonical_header 9 pcm16_24k ++ b_ "audiomore", mkWorld ["Hello"%string]).
Proof.
  apply (stream_to_container cpython311
           [audio_chunk (b_ "audio") (Some "audio/L16;rate=24000"%string);
            text_chunk "note";
            audio_chunk (b_ "more") (Some "audio/L16;rate=24000"%string)]
           "audio/L16;rate=24000" pcm16_24k "Hello" no_calls);
    try reflexivity; try discriminate.
  unfold fits_header. change (len _) with 9.
  cbn [pcm16_24k bits_per_sample rate].
  change (2 ^ 32) with 4294967296. change (2 ^ 16) with 65536.
  change (16 / 8) with 2. lia.
Defined.

(* ===================================================================== *)
(** ** More on speak_text *)
(* ===================================================================== *)

(** X14.  speak_text has two outcomes only: a response labelled audio/wav
    whose body is not empty, or HTTP 400.  It never answers 500, and it
    never sends an empty body. *)
Theorem speak_text_outcomes (rt : Runtime) (provider : Provider) (text : string)
  (w : World) :
  (exists body, fst (speak_text rt provider text w) = StreamingResponse body "audio/wav"
                /\ body <> []) \/
  (exists detail, fst (speak_text rt provider text w) = HTTPException 400 detail).
Proof.
  destruct (all_space text) eqn:Hs.
  - right. rewrite (blank_text_rejected_general rt provider text w Hs).
    eexists. reflexivity.
  - rewrite (speak_text_not_blank rt provider text w (all_space_strip text Hs)).
    cbn [fst].
    destruct (fst (generate_speech_with_gemini rt provider text w)) as [| b l].
    + right. eexists. reflexivity.
    + left. exists (b :: l). split; [reflexivity | discriminate].
Qed.

(** X15.  Quota exhaustion reaches the client as an error, not as an
    empty body: for a text that is not blank, an upstream exception with
    the quota signature makes speak_text answer HTTP 400 with the detail
    of the empty-audio check, after one call to the provider. *)
Theorem speak_text_on_quota (rt : Runtime) (provider : Provider) (text : string)
  (w : World) (e : exn) :
  all_space text = false ->
  aggregate (provider text) ([], None) = Raise e ->
  quota_signature (exn_str rt e) = true ->
  speak_text rt provider text w
  = (HTTPException 400
       "ValueError in speak_text: FATAL: Charon voice generation returned empty audio",
     mkWorld (upstream_calls w ++ [text])).
Proof.
  intros Hs He Hq.
  rewrite (speak_text_not_blank rt provider text w (all_space_strip text Hs)).
  rewrite (generate_speech_raise rt provider text w e (body_raises rt _ e He)).
  cbn [fst]. rewrite (on_exception_quota rt e Hq). reflexivity.
Qed.

Lemma speak_text_on_quota_witness :
  speak_text cpython311 (failing_provider "429 RESOURCE_EXHAUSTED") "Hello" no_calls
  = (HTTPException 400
       "ValueError in speak_text: FATAL: Charon voice generation returned empty audio",
     mkWorld ["Hello"%string]).
Proof.
  exact (speak_text_on_quota cpython311 (failing_provider "429 RESOURCE_EXHAUSTED")
           "Hello" no_calls (UpstreamError "429 RESOURCE_EXHAUSTED")
           eq_refl eq_refl eq_refl).
Defined.

(** X16.  Any other upstream failure reaches the client as a success: for
    a text that is not blank, an upstream exception without the quota
    signature makes speak_text answer the one-second silent container,
    labelled audio/wav. *)
Theorem speak_text_on_failure (rt : Runtime) (provider : Provider) (text : string)
  (w : World) (e : exn) :
  all_space text = false ->
  aggregate (provider text) ([], None) = Raise e ->
  quota_signature (exn_str rt e) = false ->
  speak_text rt provider text w
  = (StreamingResponse silent_container "audio/wav",
     mkWorld (upstream_calls w ++ [text])).
Proof.
  intros Hs He Hq.
  rewrite (speak_text_not_blank rt provider text w (all_space_strip text Hs)).
  rewrite (generate_speech_raise rt provider text w e (body_raises rt _ e He)).
  cbn [fst]. rewrite (on_exception_other rt e Hq).
  pose proof silent_container_nonempty as Hne.
  destruct silent_container; [congruence | reflexivity].
Qed.

Lemma speak_text_on_failure_witness :
  speak_text cpython311 (failing_provider "503 UNAVAILABLE") "Hello" no_calls
  = (StreamingResponse silent_container "audio/wav", mkWorld ["Hello"%string]).
Proof.
  exact (speak_text_on_failure cpython311 (failing_provider "503 UNAVAILABLE")
           "Hello" no_calls (UpstreamError "503 UNAVAILABLE")
           eq_refl eq_refl eq_refl).
Defined.

(** X17.  speak_text calls the provider exactly when the text is not
    blank, once, and with the text as it was sent (not stripped). *)
Theorem speak_text_calls (rt : Runtime) (provider : Provider) (text : string)
  (w : World) :
  snd (speak_text rt provider text w)
  = if all_space text then w else mkWorld (upstream_calls w ++ [text]).
Proof.
  destruct (all_space text) eqn:Hs.
  - rewrite (blank_text_rejected_general rt provider text w Hs). reflexivity.
  - rewrite (speak_text_not_blank rt provider text w (all_space_strip text Hs)).
    reflexivity.
Qed.

(* ===================================================================== *)
(** ** Conversation formatting *)
(* ===================================================================== *)

Section FormatFacts.

Import Interview.

Lemma append_nil_r (s : string) : (s ++ "")%string = s.
Proof. induction s as [| c r IH]; cbn [append]; [reflexivity | rewrite IH; reflexivity]. Qed.

Lemma append_assoc (a b c : string) : ((a ++ b) ++ c)%string = (a ++ b ++ c)%string.
Proof. induction a as [| x a IH]; cbn [append]; [reflexivity | rewrite IH; reflexivity]. Qed.

Lemma format_from (h : list ConversationMessage) :
  forall acc,
    fold_left
      (fun formatted msg =>
         (formatted ++ (label msg ++ ": " ++ content msg ++ nl))%string) h acc
    = (acc ++ format_conversation_for_gemini h)%string.
Proof.
  unfold format_conversation_for_gemini.
  induction h as [| m h IH]; intros acc; cbn [fold_left].
  - rewrite append_nil_r. reflexivity.
  - rewrite IH, (IH (_ ++ _)%string). cbn [append].
    rewrite append_assoc. reflexivity.
Qed.

Lemma format_cons (m : ConversationMessage) (h : list ConversationMessage) :
  format_conversation_for_gemini (m :: h)
  = (line m ++ nl ++ format_conversation_for_gemini h)%string.
Proof.
  unfold format_conversation_for_gemini at 1. cbn [fold_left].
  rewrite format_from. unfold line.
  rewrite !append_assoc. reflexivity.
Qed.

Lemma cut_unique (c : ascii) (x y r r' : string) :
  occurs c x = false -> occurs c y = false ->
  (x ++ String c r)%string = (y ++ String c r')%string -> x = y /\ r = r'.
Proof.
  revert y. induction x as [| a x IH]; intros [| b y]; cbn [occurs append];
    intros Hx Hy H.
  - injection H as H. auto.
  - injection H as Hc _. subst b. rewrite Ascii.eqb_refl in Hy. discriminate.
  - injection H as Hc _. subst a. rewrite Ascii.eqb_refl in Hx. discriminate.
  - apply orb_false_elim in Hx as [_ Hx]. apply orb_false_elim in Hy as [_ Hy].
    injection H as -> H. destruct (IH y Hx Hy H) as [-> ->]. auto.
Qed.

Lemma line_one_line (m : ConversationMessage) :
  one_line m = true -> occurs "010" (line m) = false.
Proof.
  unfold one_line, line, label. intros H. apply negb_true_iff in H.
  destruct (String.eqb (role m) "user"); cbn [append occurs Ascii.eqb Bool.eqb orb];
    exact H.
Qed.

Lemma line_inj (m1 m2 : ConversationMessage) :
  line m1 = line m2 -> label m1 = label m2 /\ content m1 = content m2.
Proof.
  unfold line, label.
  destruct (String.eqb (role m1) "user"), (String.eqb (role m2) "user");
    cbn [append]; intros H; try discriminate H;
    injection H as H; auto.
Qed.

End FormatFacts.

(** X18.  format_conversation_for_gemini composes: the text of two
    histories put end to end is the text of the first followed by the text
    of the second, and the empty history gives the empty text. *)
Theorem format_conversation_app (a b : list Interview.ConversationMessage) :
  Interview.format_conversation_for_gemini (a ++ b)
  = (Interview.format_conversation_for_gemini a
     ++ Interview.format_conversation_for_gemini b)%string /\
  Interview.format_conversation_for_gemini [] = EmptyString.
Proof.
  split; [| reflexivity].
  unfold Interview.format_conversation_for_gemini at 1.
  rewrite fold_left_app. fold (Interview.format_conversation_for_gemini a).
  apply format_from.
Qed.

(** X19.  When no message content holds a line break, the formatted text
    determines the conversation as the prompt shows it: two histories
    with the same text have the same speaker labels and the same contents,
    message by message. *)
Theorem format_conversation_injective (h1 h2 : list Interview.ConversationMessage) :
  forallb Interview.one_line h1 = true ->
  forallb Interview.one_line h2 = true ->
  Interview.format_conversation_for_gemini h1
  = Interview.format_conversation_for_gemini h2 ->
  map Interview.label h1 = map Interview.label h2 /\
  map Interview.content h1 = map Interview.content h2.
Proof.
  revert h2. induction h1 as [| m1 h1 IH]; intros [| m2 h2] H1 H2 H.
  - split; reflexivity.
  - rewrite format_cons in H. unfold Interview.line, Interview.label in H.
    destruct (String.eqb (Interview.role m2) "user"); discriminate H.
  - rewrite format_cons in H. unfold Interview.line, Interview.label in H.
    destruct (String.eqb (Interview.role m1) "user"); discriminate H.
  - cbn [forallb] in H1, H2.
    apply andb_prop in H1 as [L1 H1]. apply andb_prop in H2 as [L2 H2].
    rewrite !format_cons in H. unfold Interview.nl in H. cbn [append] in H.
    apply cut_unique in H as [Hl Hr]; try (apply line_one_line; assumption).
    apply line_inj in Hl as [Hlab Hcont].
    destruct (IH h2 H1 H2 Hr) as [IHl IHc].
    cbn [map]. rewrite Hlab, Hcont, IHl, IHc. split; reflexivity.
Qed.

Lemma format_conversation_injective_witness :
  map Interview.label
    [Interview.mkMessage "user" "hi"; Interview.mkMessage "assistant" "q?"]
  = map Interview.label
      [Interview.mkMessage "user" "hi"; Interview.mkMessage "system" "q?"] /\
  map Interview.content
    [Interview.mkMessage "user" "hi"; Interview.mkMessage "assistant" "q?"]
  = map Interview.content
      [Interview.mkMessage "user" "hi"; Interview.mkMessage "system" "q?"].
Proof.
  apply (format_conversation_injective
           [Interview.mkMessage "user" "hi"; Interview.mkMessage "assistant" "q?"]
           [Interview.mkMessage "user" "hi"; Interview.mkMessage "system" "q?"]);
    reflexivity.
Defined.

(* ===================================================================== *)
(** ** Question generation *)
(* ===================================================================== *)

Section QuestionFacts.

Import Interview.

Lemma question_on_failure (client : TextClient) (h : list ConversationMessage)
  (n : Z) (e : exn) :
  client "gemini-2.0-flash"%string (question_request h n) = Raise e ->
  generate_question_with_gemini client h n
  = py_getitem default_questions (Z.min (n - 1) 4).
Proof.
  intros H. unfold generate_question_with_gemini.
  fold (question_request h n). rewrite H. reflexivity.
Qed.

Lemma question_on_answer (client : TextClient) (h : list ConversationMessage)
  (n : Z) (answer : option string) :
  client "gemini-2.0-flash"%string (question_request h n) = Ok answer ->
  generate_question_with_gemini client h n
  = Ok (match answer with
        | Some (String c r) => Str.strip (String c r)
        | _ => "Tell me about a challenging project you've worked on."%string
        end).
Proof.
  intros H. unfold generate_question_with_gemini.
  fold (question_request h n). rewrite H. reflexivity.
Qed.

Lemma fallback_index (n : Z) :
  (-4 <= n ->
   py_getitem default_questions (Z.min (n - 1) 4)
   = Ok (nth (Z.to_nat (if n <=? 0 then n + 4 else Z.min n 5 - 1))
             default_questions EmptyString)) /\
  (n <= -5 ->
   py_getitem default_questions (Z.min (n - 1) 4)
   = Raise (IndexError "list index out of range")).
Proof.
  split; intros Hn.
  - assert (Hc : n = -4 \/ n = -3 \/ n = -2 \/ n = -1 \/ n = 0 \/
                 n = 1 \/ n = 2 \/ n = 3 \/ n = 4 \/ 5 <= n) by lia.
    destruct Hc as [-> | [-> | [-> | [-> | [-> | [-> | [-> | [-> | [-> | H5]]]]]]]]];
      try reflexivity.
    rewrite Z.min_r by lia. rewrite (Z.min_r n 5) by lia.
    destruct (Z.leb_spec n 0); [lia | reflexivity].
  - rewrite Z.min_l by lia. unfold py_getitem.
    change (Z.of_nat (List.length default_questions)) with 5.
    destruct (Z.ltb_spec (n - 1) 0); [| lia].
    destruct (Z.leb_spec 0 (n - 1 + 5)); [lia | reflexivity].
Qed.

End QuestionFacts.

(** X20.  When the provider fails and the question number is at least 1,
    generate_question_with_gemini returns the stock question of that
    number, and from number 5 on always the fifth (last) one. *)
Theorem question_fallback (client : Interview.TextClient)
  (h : list Interview.ConversationMessage) (n : Z) (e : exn) :
  client "gemini-2.0-flash"%string (Interview.question_request h n) = Raise e ->
  1 <= n ->
  Interview.generate_question_with_gemini client h n
  = Ok (nth (Z.to_nat (Z.min n 5 - 1)) Interview.default_questions EmptyString).
Proof.
  intros H Hn. rewrite (question_on_failure client h n e H).
  rewrite (proj1 (fallback_index n)) by lia.
  destruct (Z.leb_spec n 0); [lia | reflexivity].
Qed.

Lemma question_fallback_witness :
  Interview.generate_question_with_gemini (Interview.failing_client "503") [] 2
  = Ok "What is a challenging problem you've solved recently?"%string /\
  Interview.generate_question_with_gemini (Interview.failing_client "503") [] 9
  = Ok "Can you tell me about a time you worked in a team?"%string.
Proof.
  split.
  - apply (question_fallback (Interview.failing_client "503") [] 2
             (UpstreamError "503") eq_refl). lia.
  - apply (question_fallback (Interview.failing_client "503") [] 9
             (UpstreamError "503") eq_refl). lia.
Defined.






(* ===================================================================== *)
(** ** The text handed to the JSON decoder *)
(* ===================================================================== *)

Section FenceFacts.

Import Interview.

Lemma split_str_from_nonempty (sep s : string) :
  forall skip, split_str_from sep s skip <> [].
Proof.
  induction s as [| c r IH]; intros skip; cbn [split_str_from]; [discriminate |].
  destruct skip; [| apply IH].
  destruct (Str.startswith (String c r) sep); [discriminate |].
  destruct (split_str_from sep r 0); discriminate.
Qed.

Lemma startswith_inv (s p : string) :
  Str.startswith s p = true -> exists rest, s = (p ++ rest)%string.
Proof.
  revert s. induction p as [| a p IH]; intros s; cbn [Str.startswith append].
  - intros _. exists s. reflexivity.
  - destruct s as [| b s]; [discriminate |].
    intros H. apply andb_prop in H as [Hab Hp].
    apply Ascii.eqb_eq in Hab. subst b.
    destruct (IH s Hp) as [rest ->]. exists rest. reflexivity.
Qed.

Lemma split_after_fence (rest : string) :
  split_str "```" ("```" ++ rest) = EmptyString :: split_str "```" rest.
Proof. reflexivity. Qed.

Lemma split_str_through (x y : string) :
  occurs "`" x = false ->
  split_str_from "```" (x ++ y) 0
  = match split_str_from "```" y 0 with
    | h :: t => (x ++ h)%string :: t
    | [] => [x]
    end.
Proof.
  induction x as [| c r IH]; cbn [occurs append].
  - intros _. pose proof (split_str_from_nonempty "```" y 0) as Hne.
    destruct (split_str_from "```" y 0); [congruence | reflexivity].
  - intros H. apply orb_false_elim in H as [Hc Hr].
    cbn [split_str_from Str.startswith].
    rewrite Ascii.eqb_sym, Hc. cbn [andb]. rewrite (IH Hr).
    destruct (split_str_from "```" y 0); reflexivity.
Qed.

Lemma split_before_fence (x rest : string) :
  occurs "`" x = false ->
  split_str "```" (x ++ "```" ++ rest) = x :: split_str "```" rest.
Proof.
  intros H. unfold split_str. rewrite (split_str_through x _ H).
  fold (split_str "```" ("```" ++ rest)). rewrite split_after_fence.
  rewrite append_nil_r. reflexivity.
Qed.

End FenceFacts.

(** X24.  Taking the text between the code fences cannot fail: for every
    response text the lines before json.loads produce a text, so the
    subscript [1] never raises and the only failure left is the decoder's. *)
Theorem json_text_total (text : string) :
  exists r, Interview.json_text text = Ok r.
Proof.
  unfold Interview.json_text, Interview.unfence.
  destruct (Str.startswith (Str.strip text) "```") eqn:Hf;
    [| eexists; reflexivity].
  apply startswith_inv in Hf as [rest ->].
  rewrite split_after_fence.
  pose proof (split_str_from_nonempty "```" rest 0) as Hne.
  unfold Interview.split_str.
  destruct (Interview.split_str_from "```" rest 0) as [| p ps]; [congruence |].
  cbn [getitem nth_error bind].
  destruct (Str.startswith p "json"); eexists; reflexivity.
Qed.

(** X25.  For a fenced response the text handed to the decoder is what
    stands between the opening fence and the next one, less a leading
    "json" tag; what follows the closing fence is dropped.  This holds for
    every body free of backticks. *)
Theorem unfence_fenced (body tail : string) :
  occurs "`" body = false ->
  Interview.unfence ("```" ++ body ++ "```" ++ tail)
  = Ok (if Str.startswith body "json" then Interview.drop 4 body else body).
Proof.
  intros H. unfold Interview.unfence.
  change (Str.startswith ("```" ++ body ++ "```" ++ tail) "```") with true.
  cbv iota. rewrite split_after_fence, (split_before_fence body tail H).
  cbn [getitem nth_error bind].
  destruct (Str.startswith body "json"); reflexivity.
Qed.

Lemma unfence_fenced_witness :
  Interview.unfence ("```" ++ "json{1}" ++ "```" ++ " trailing words")
  = Ok "{1}"%string.
Proof.
  apply (unfence_fenced "json{1}" " trailing words"). reflexivity.
Defined.
